(** * openapi-fetch: parameter serialization, URL construction, header
      merging and response classification

    A shallow embedding of [packages/openapi-fetch/src/index.js] and the
    properties of it that the specification states.

    Conventions of the embedding.
    - A JavaScript string is a [string] holding its UTF-8 bytes; the
      strings are well formed (no lone surrogates), so [encodeURIComponent]
      never raises [URIError].
    - A number is an integer [Z] below 10^21 in magnitude, the range in which
      [String(n)] is the plain decimal numeral.
    - An object is the list of its own enumerable properties in the order
      in which [for ... in] and [Object.entries] visit them (for keys that
      are not array indices this is insertion order); keys are pairwise
      distinct.  Objects are plain data: no inherited enumerable property,
      no [toString] override.  Their prototype is [Object.prototype], so
      reading a key that the object lacks and [Object.prototype] defines
      ([toString], [__proto__], ...) finds a member that is no [value];
      [get_prop] covers the other reads, and a statement about a missing
      key says which keys it means ([unmatched]).
    - A function that can [throw] returns a [result]. *)

From Stdlib Require Import ZArith Ascii String DecimalString.
From stdpp Require Import base option list strings sorting gmap.

Local Open Scope Z_scope.
Set Warnings "-register-all".

(* ===================================================================== *)
(** ** JavaScript values *)
(* ===================================================================== *)

Inductive value : Type :=
| VUndefined
| VNull
| VBool (b : bool)
| VNum (n : Z)
| VStr (s : string)
| VArr (elems : list value)
| VObj (props : list (string * value)).

(** Errors that the modelled code can raise. *)
Inductive exn : Type :=
| NestedValueError   (* the [Error] thrown by [serializePrimitiveParam] *)
| TypeError          (* calling a method of [undefined], and the like *)
| SyntaxError        (* a body that is not JSON *)
| Rejected (reason : string). (* a rejection of a caller-supplied function *)

Inductive result (A : Type) : Type :=
| Ok (a : A)
| Throw (e : exn).
Arguments Ok {A} a.
Arguments Throw {A} e.

Global Instance result_ret : MRet result := λ A a, Ok a.

Global Instance result_bind : MBind result := λ A B k r,
  match r with
  | Ok a => k a
  | Throw e => Throw e
  end.

Global Instance result_fmap : FMap result := λ A B f r,
  match r with
  | Ok a => Ok (f a)
  | Throw e => Throw e
  end.

Definition is_nullish (v : value) : bool :=
  match v with
  | VUndefined | VNull => true
  | _ => false
  end.

(** [Array.isArray(v)] *)
Definition isArray (v : value) : bool :=
  match v with
  | VArr _ => true
  | _ => false
  end.

(** [typeof v === "object"]; [null] is an object for [typeof]. *)
Definition typeof_object (v : value) : bool :=
  match v with
  | VNull | VArr _ | VObj _ => true
  | _ => false
  end.

(** Truthiness, as tested by [!v], [if (v)] and [v || w]. *)
Definition ToBoolean (v : value) : bool :=
  match v with
  | VUndefined | VNull => false
  | VBool b => b
  | VNum n => negb (n =? 0)
  | VStr s => negb (String.eqb s "")
  | VArr _ | VObj _ => true
  end.

(* ===================================================================== *)
(** ** Strings *)
(* ===================================================================== *)

(** [parts.join(sep)] on strings. *)
Fixpoint String_join (sep : string) (parts : list string) : string :=
  match parts with
  | [] => ""
  | p :: rest =>
      match rest with
      | [] => p
      | _ :: _ => p +:+ sep +:+ String_join sep rest
      end
  end.

Definition Z_to_string (n : Z) : string :=
  NilZero.string_of_int (Z.to_int n).

Definition nat_to_string (n : nat) : string :=
  Z_to_string (Z.of_nat n).

(** [String(v)], which is also what a template literal and string
    concatenation apply to [v].  An array prints as its elements joined
    with a comma, [null] and [undefined] elements printing as nothing. *)
Fixpoint ToString (v : value) : string :=
  match v with
  | VUndefined => "undefined"
  | VNull => "null"
  | VBool b => if b then "true" else "false"
  | VNum n => Z_to_string n
  | VStr s => s
  | VArr elems =>
      String_join ","
        (List.map (λ e, match e with
                        | VUndefined | VNull => ""
                        | _ => ToString e
                        end) elems)
  | VObj _ => "[object Object]"
  end.

(** What [Array.prototype.join] prints for one element. *)
Definition join_element (e : value) : string :=
  if is_nullish e then "" else ToString e.

(** [elems.join(sep)] *)
Definition Array_join (sep : string) (elems : list value) : string :=
  String_join sep (List.map join_element elems).

Definition hex_digit (n : N) : ascii :=
  ascii_of_N (if (n <? 10)%N then 48 + n else 55 + n)%N.

(** The characters [encodeURIComponent] leaves alone:
    [A-Z a-z 0-9 - _ . ! ~ * ' ( )]. *)
Definition uri_unreserved (c : ascii) : bool :=
  let n := N_of_ascii c in
  ((65 <=? n) && (n <=? 90) || (97 <=? n) && (n <=? 122)
   || (48 <=? n) && (n <=? 57)
   || (n =? 45) || (n =? 95) || (n =? 46) || (n =? 33) || (n =? 126)
   || (n =? 42) || (n =? 39) || (n =? 40) || (n =? 41))%N.

Fixpoint percent_encode (s : string) : string :=
  match s with
  | EmptyString => EmptyString
  | String c rest =>
      if uri_unreserved c then String c (percent_encode rest)
      else
        let n := N_of_ascii c in
        String "%" (String (hex_digit (n / 16)) (String (hex_digit (n mod 16))
          (percent_encode rest)))
  end.

(** [encodeURIComponent(v)]: the argument is converted with [String]. *)
Definition encodeURIComponent (v : value) : string :=
  percent_encode (ToString v).

(* ===================================================================== *)
(** ** Serialization options *)
(* ===================================================================== *)

Inductive Style : Type :=
| simple | label | matrix | form | spaceDelimited | pipeDelimited | deepObject.

Global Instance Style_eq_dec : EqDecision Style.
Proof. solve_decision. Defined.

(** The [options] argument of the array and object encoders.  A field is
    [None] when the property is missing ([undefined]). *)
Record SerializerOptions : Type := {
  style : option Style;
  explode : option bool;
  allowReserved : option bool;
}.

(** [options.style === s] *)
Definition style_is (options : SerializerOptions) (s : Style) : bool :=
  bool_decide (style options = Some s).

(** [b === true] and [b === false] on an optional boolean field. *)
Definition is_true (b : option bool) : bool := bool_decide (b = Some true).
Definition is_false (b : option bool) : bool := bool_decide (b = Some false).

(** [{ simple: ",", label: ".", matrix: ";" }[options.style] || "&"] *)
Definition explode_joiner (options : SerializerOptions) : string :=
  match style options with
  | Some simple => ","
  | Some label => "."
  | Some matrix => ";"
  | _ => "&"
  end.

(** The own enumerable properties that [for (const k in v)] visits, each
    with [v[k]]; an array has its indices as keys. *)
Definition for_in (v : value) : list (string * value) :=
  match v with
  | VObj props => props
  | VArr elems => imap (λ i e, (nat_to_string i, e)) elems
  | _ => []
  end.

(** A loop whose body computes one element and pushes it on [values];
    the loop stops at the first [throw]. *)
Fixpoint push_each {A} (body : A → result value) (items : list A)
    (values : list value) : result (list value) :=
  match items with
  | [] => Ok values
  | x :: rest => y ← body x; push_each body rest (values ++ [y])
  end.

(* ===================================================================== *)
(** ** The encoders *)
(* ===================================================================== *)

(** [serializePrimitiveParam(name, value, options)].  The function reads
    [options?.allowReserved] only; the third argument is that field. *)
Definition serializePrimitiveParam (name : string) (v : value)
    (allowReserved : option bool) : result string :=
  if is_nullish v then Ok ""
  else if typeof_object v then Throw NestedValueError
  else Ok (name +:+ "=" +:+
           (if is_true allowReserved then ToString v else encodeURIComponent v)).

(** [serializeObjectParam(name, value, options)] *)
Definition serializeObjectParam (name : string) (v : value)
    (options : SerializerOptions) : result string :=
  if negb (ToBoolean v) || negb (typeof_object v) then Ok ""
  else
    let joiner := explode_joiner options in
    if negb (style_is options deepObject) && is_false (explode options) then
      (* explode: false *)
      let values :=
        fold_left (λ values kv,
            values ++ [VStr kv.1;
                       if is_true (allowReserved options) then kv.2
                       else VStr (encodeURIComponent kv.2)])
          (for_in v) [] in
      let final := Array_join "," values in
      Ok (match style options with
          | Some form => name +:+ "=" +:+ final
          | Some label => "." +:+ final
          | Some matrix => ";" +:+ name +:+ "=" +:+ final
          | _ => final
          end)
    else
      (* explode: true *)
      values ← push_each (λ kv,
          let finalName :=
            if style_is options deepObject
            then name +:+ "[" +:+ kv.1 +:+ "]" else kv.1 in
          VStr <$> serializePrimitiveParam finalName kv.2 (allowReserved options))
        (for_in v) [];
      let final := Array_join joiner values in
      Ok (if style_is options label || style_is options matrix
          then joiner +:+ final else final).

(** [serializeArrayParam(name, value, options)] *)
Definition serializeArrayParam (name : string) (v : value)
    (options : SerializerOptions) : result string :=
  match v with
  | VArr elems =>
      if is_false (explode options) then
        (* explode: false *)
        let joiner :=
          match style options with
          | Some form => ","
          | Some spaceDelimited => "%20"
          | Some pipeDelimited => "|"
          | _ => ","
          end in
        let final :=
          Array_join joiner
            (if is_true (allowReserved options) then elems
             else List.map (λ e, VStr (encodeURIComponent e)) elems) in
        Ok (match style options with
            | Some simple => final
            | Some label => "." +:+ final
            | Some matrix => ";" +:+ name +:+ "=" +:+ final
            | _ => name +:+ "=" +:+ final
            end)
      else
        (* explode: true *)
        let joiner := explode_joiner options in
        values ← push_each (λ e,
            if style_is options simple || style_is options label
            then Ok (if is_true (allowReserved options) then e
                     else VStr (encodeURIComponent e))
            else VStr <$> serializePrimitiveParam name e (allowReserved options))
          elems [];
        Ok (if style_is options label || style_is options matrix
            then joiner +:+ Array_join joiner values
            else Array_join joiner values)
  | _ => Ok ""
  end.

Definition opts (s : option Style) (e : option bool) (r : option bool)
  : SerializerOptions :=
  {| style := s; explode := e; allowReserved := r |}.

(* ===================================================================== *)
(** ** The query serializer *)
(* ===================================================================== *)

(** The [options] of [createQuerySerializer]: the client's or the
    request's [querySerializer] when it is an object. *)
Record QuerySerializerOptions : Type := {
  qs_array : option SerializerOptions;
  qs_object : option SerializerOptions;
  qs_allowReserved : option bool;
}.

(** [options?.allowReserved] *)
Definition qs_allowReserved_of (options : option QuerySerializerOptions)
  : option bool :=
  o ← options; qs_allowReserved o.

(** [{ style: s, explode: true, ...sub, allowReserved: r || false }] *)
Definition merge_options (s : Style) (sub : option SerializerOptions)
    (r : option bool) : SerializerOptions :=
  {| style := Some (default s (sub ≫= style));
     explode := Some (default true (sub ≫= explode));
     allowReserved := Some (is_true r) |}.

Definition array_options (options : option QuerySerializerOptions)
  : SerializerOptions :=
  merge_options form (options ≫= qs_array) (qs_allowReserved_of options).

Definition object_options (options : option QuerySerializerOptions)
  : SerializerOptions :=
  merge_options deepObject (options ≫= qs_object) (qs_allowReserved_of options).

(** The body of the [for (const name in queryParams)] loop, from the
    parameters still to visit and the fragments pushed so far. *)
Fixpoint querySerializer_loop (options : option QuerySerializerOptions)
    (entries : list (string * value)) (search : list string)
  : result (list string) :=
  match entries with
  | [] => Ok search
  | (name, v) :: rest =>
      if is_nullish v then querySerializer_loop options rest search
      else if isArray v then
        s ← serializeArrayParam name v (array_options options);
        querySerializer_loop options rest (search ++ [s])
      else if typeof_object v then
        s ← serializeObjectParam name v (object_options options);
        querySerializer_loop options rest (search ++ [s])
      else
        s ← serializePrimitiveParam name v (qs_allowReserved_of options);
        querySerializer_loop options rest (search ++ [s])
  end.

(** [createQuerySerializer(options)], applied to [queryParams]. *)
Definition createQuerySerializer (options : option QuerySerializerOptions)
    (queryParams : value) : result string :=
  search ← (if ToBoolean queryParams && typeof_object queryParams
            then querySerializer_loop options (for_in queryParams) []
            else Ok []);
  Ok (String_join "&" search).

(* ===================================================================== *)
(** ** The path serializer *)
(* ===================================================================== *)

(** [s.substring(from, to)] for [from <= to]. *)
Definition substring (s : string) (from to : nat) : string :=
  String.substring from (to - from) s.

(** [s.startsWith(p)] *)
Definition startsWith (s p : string) : bool := String.prefix p s.

(** [s.endsWith(p)] *)
Definition endsWith (s p : string) : bool :=
  String.prefix (String.rev p) (String.rev s).

(** [PATH_PARAM_RE = /\{[^{}]+\}/g], as used by [pathname.match]: all
    matches, left to right.  A match is an opening brace, a non-empty run
    of characters that are not braces, and a closing brace.  [inside] is
    the run read since the last opening brace, if one is open. *)
Fixpoint match_PATH_PARAM_RE (inside : option string) (s : string)
  : list string :=
  match s with
  | EmptyString => []
  | String c rest =>
      if Ascii.eqb c "{" then match_PATH_PARAM_RE (Some "") rest
      else if Ascii.eqb c "}" then
        match inside with
        | Some (String b body) =>
            ("{" +:+ String b body +:+ "}") :: match_PATH_PARAM_RE None rest
        | _ => match_PATH_PARAM_RE None rest
        end
      else
        match_PATH_PARAM_RE ((λ body, body +:+ String c "") <$> inside) rest
  end.

(** The first occurrence of [pat] in [s]: what precedes and what follows. *)
Fixpoint split_first (pat s : string) : option (string * string) :=
  if String.prefix pat s
  then Some ("", String.substring (String.length pat)
                   (String.length s - String.length pat) s)
  else match s with
       | EmptyString => None
       | String c rest =>
           (λ ba : string * string, (String c ba.1, ba.2)) <$> split_first pat rest
       end.

(** The replacement text of [String.prototype.replace] with a string
    pattern: [$$], [$&], [$`] and [$'] are expanded, any other [$]
    stands for itself (a string pattern has no capture groups). *)
Fixpoint GetSubstitution (matched before after template : string) : string :=
  match template with
  | EmptyString => EmptyString
  | String c t1 =>
      if Ascii.eqb c "$" then
        match t1 with
        | String d t2 =>
            if Ascii.eqb d "$" then
              String "$" (GetSubstitution matched before after t2)
            else if Ascii.eqb d "&" then
              matched +:+ GetSubstitution matched before after t2
            else if Ascii.eqb d "`" then
              before +:+ GetSubstitution matched before after t2
            else if Ascii.eqb d "'" then
              after +:+ GetSubstitution matched before after t2
            else String "$" (GetSubstitution matched before after t1)
        | EmptyString => String "$" EmptyString
        end
      else String c (GetSubstitution matched before after t1)
  end.

(** [s.replace(pat, replacement)] for a string [pat]: the first
    occurrence only. *)
Definition String_replace (s pat replacement : string) : string :=
  match split_first pat s with
  | Some (before, after) =>
      before +:+ GetSubstitution pat before after replacement +:+ after
  | None => s
  end.

(** [props[k]] for a key that the object has itself, and for a key that
    neither the object nor [Object.prototype] has ([undefined]).  For a
    key that only [Object.prototype] has ([toString], [constructor], ...)
    the program reads the inherited member, a function of the runtime,
    which is no [value]: see [reaches_prototype]. *)
Fixpoint get_prop (props : list (string * value)) (k : string) : value :=
  match props with
  | [] => VUndefined
  | (k', v) :: rest => if String.eqb k' k then v else get_prop rest k
  end.

(** The prefix and the suffix of a placeholder: [*] at the end selects
    [explode], a leading [.] or [;] selects the style. *)
Definition parse_placeholder (m : string) : Style * bool * string :=
  let paramName := substring m 1 (String.length m - 1) in
  let '(explode, paramName) :=
    if endsWith paramName "*"
    then (true, substring paramName 0 (String.length paramName - 1))
    else (false, paramName) in
  if startsWith paramName "."
  then (label, explode, substring paramName 1 (String.length paramName))
  else if startsWith paramName ";"
  then (matrix, explode, substring paramName 1 (String.length paramName))
  else (simple, explode, paramName).

(** One turn of the [for (const match of matches)] loop of
    [defaultPathSerializer]: the next value of [nextURL]. *)
Definition defaultPathSerializer_step (pathParams : option (list (string * value)))
    (nextURL m : string) : result string :=
  let '(style, explode, paramName) := parse_placeholder m in
  match pathParams with
  | None => Ok nextURL
  | Some props =>
      let v := get_prop props paramName in
      if is_nullish v then Ok nextURL
      else if isArray v then
        s ← serializeArrayParam paramName v
              {| style := Some style; explode := Some explode;
                 allowReserved := None |};
        Ok (String_replace nextURL m s)
      else if typeof_object v then
        s ← serializeObjectParam paramName v
              {| style := Some style; explode := Some explode;
                 allowReserved := None |};
        Ok (String_replace nextURL m s)
      else if bool_decide (style = matrix) then
        s ← serializePrimitiveParam paramName v None;
        Ok (String_replace nextURL m (";" +:+ s))
      else
        Ok (String_replace nextURL m
              (if bool_decide (style = label) then "." +:+ ToString v
               else ToString v))
  end.

Fixpoint defaultPathSerializer_loop (pathParams : option (list (string * value)))
    (matches : list string) (nextURL : string) : result string :=
  match matches with
  | [] => Ok nextURL
  | m :: rest =>
      next ← defaultPathSerializer_step pathParams nextURL m;
      defaultPathSerializer_loop pathParams rest next
  end.

(** [defaultPathSerializer(pathname, pathParams)]; the result is
    [undefined] when the template has no placeholder.  [pathParams] is an
    object, or [None] when it is missing. *)
Definition defaultPathSerializer (pathname : string)
    (pathParams : option (list (string * value))) : result value :=
  match match_PATH_PARAM_RE None pathname with
  | [] => Ok VUndefined
  | matches => VStr <$> defaultPathSerializer_loop pathParams matches pathname
  end.

(* ===================================================================== *)
(** ** URL construction *)
(* ===================================================================== *)

(** A source of headers for [mergeHeaders]. *)
Inductive HeadersInit : Type :=
| HValue (v : value)                   (* a plain value, usually an object *)
| HHeaders (h : gmap string string).   (* an instance of [Headers] *)

(** [params] of a request. *)
Record Params : Type := {
  path : option (list (string * value));
  query : value;
  header : HeadersInit;
}.

(** The [options] argument of [createFinalURL]. *)
Record FinalURLOptions : Type := {
  baseUrl : string;
  params : option Params;
  querySerializer : value → result string;
}.

(** [s.replace(LEADING_QUESTION_RE, "")] with
    [LEADING_QUESTION_RE = /^\?+/]. *)
Fixpoint strip_leading_question (s : string) : string :=
  match s with
  | String c rest =>
      if Ascii.eqb c "?" then strip_leading_question rest else s
  | EmptyString => EmptyString
  end.

(** [a ?? b] *)
Definition nullish_coalesce (a b : value) : value :=
  if is_nullish a then b else a.

(** [createFinalURL(pathname, options)].  The result is a value: it is
    [undefined] when the path serializer returned [undefined] and no query
    was appended. *)
Definition createFinalURL (pathname : string) (options : FinalURLOptions)
  : result value :=
  let finalURL := VStr (baseUrl options +:+ pathname) in
  finalURL ←
    match params options ≫= path with
    | Some pathParams =>
        defaultPathSerializer (ToString finalURL) (Some pathParams)
    | None => Ok finalURL
    end;
  p ← from_option Ok (Throw TypeError) (params options);
  q ← querySerializer options (nullish_coalesce (query p) (VObj []));
  let search := strip_leading_question q in
  Ok (if negb (String.eqb search "")
      then VStr (ToString finalURL +:+ "?" +:+ search)
      else finalURL).

Definition no_params : Params :=
  {| path := None; query := VUndefined; header := HValue VUndefined |}.

(* ===================================================================== *)
(** ** Header collections *)
(* ===================================================================== *)

(** The [Headers] class of the Fetch standard, for valid names and values:
    a finite map from lower-cased names to values.  Names are compared
    without regard to ASCII case, and a value is stored without its
    leading and trailing HTTP whitespace. *)
Abbreviation Headers := (gmap string string).

Definition lower_ascii (c : ascii) : ascii :=
  let n := N_of_ascii c in
  if ((65 <=? n) && (n <=? 90))%N then ascii_of_N (n + 32) else c.

Fixpoint lower (s : string) : string :=
  match s with
  | EmptyString => EmptyString
  | String c rest => String (lower_ascii c) (lower rest)
  end.

(** Tab, line feed, carriage return and space. *)
Definition http_whitespace (c : ascii) : bool :=
  let n := N_of_ascii c in
  ((n =? 9) || (n =? 10) || (n =? 13) || (n =? 32))%N.

Fixpoint strip_leading_whitespace (s : string) : string :=
  match s with
  | String c rest =>
      if http_whitespace c then strip_leading_whitespace rest else s
  | EmptyString => EmptyString
  end.

Definition normalize_header_value (s : string) : string :=
  String.rev (strip_leading_whitespace
    (String.rev (strip_leading_whitespace s))).

(** [headers.set(k, v)] *)
Definition Headers_set (k : string) (v : value) (headers : Headers) : Headers :=
  <[lower k := normalize_header_value (ToString v)]> headers.

(** [headers.delete(k)] *)
Definition Headers_delete (k : string) (headers : Headers) : Headers :=
  delete (lower k) headers.

(** [headers.get(k)]; [None] stands for [null]. *)
Definition Headers_get (headers : Headers) (k : string) : option string :=
  headers !! lower k.

Definition entry_le (a b : string * string) : Prop := String.le a.1 b.1.

Global Instance entry_le_dec : RelDecision entry_le.
Proof. intros a b. unfold entry_le. apply _. Defined.

(** [headers.entries()]: the pairs, sorted by name. *)
Definition Headers_entries (headers : Headers) : list (string * value) :=
  prod_map id VStr <$> merge_sort entry_le (map_to_list headers).

(** [DEFAULT_HEADERS] *)
Definition DEFAULT_HEADERS : value :=
  VObj [("Content-Type", VStr "application/json")].

(** The entries that [mergeHeaders] iterates for one source, or [None]
    when the source is skipped ([!headerSet || typeof headerSet !==
    "object"]). *)
Definition header_entries (headerSet : HeadersInit)
  : option (list (string * value)) :=
  match headerSet with
  | HHeaders h => Some (Headers_entries h)
  | HValue v =>
      if negb (ToBoolean v) || negb (typeof_object v) then None
      else Some (for_in v)
  end.

(** The body of the inner loop of [mergeHeaders]. *)
Definition mergeHeaders_entry (headers : Headers) (kv : string * value)
  : Headers :=
  match kv.2 with
  | VNull => Headers_delete kv.1 headers
  | VUndefined => headers
  | v => Headers_set kv.1 v headers
  end.

(** [mergeHeaders(...allHeaders)] *)
Definition mergeHeaders (allHeaders : list HeadersInit) : Headers :=
  fold_left (λ headers headerSet,
      match header_entries headerSet with
      | None => headers
      | Some entries => fold_left mergeHeaders_entry entries headers
      end)
    allHeaders ∅.

(* ===================================================================== *)
(** ** Requests and responses *)
(* ===================================================================== *)

(** A request body, before or after serialization: a value or an instance
    of [FormData]. *)
Inductive Body : Type :=
| BodyValue (v : value)
| BodyFormData (fields : list (string * value)).

Definition Body_truthy (b : Body) : bool :=
  match b with
  | BodyValue v => ToBoolean v
  | BodyFormData _ => true
  end.

(** [b instanceof FormData], for an optional [requestInit.body]. *)
Definition is_FormData (b : option Body) : bool :=
  match b with
  | Some (BodyFormData _) => true
  | _ => false
  end.

(** What the transport returns.  [text] is the payload read as text,
    [json] the outcome of parsing it as JSON, and [other_method name] the
    outcome of any other method of that name ([blob], [arrayBuffer], ...),
    if the response has one. *)
Record Response : Type := {
  ok : bool;
  status : Z;
  headers : Headers;
  body : value;
  text : string;
  json : result value;
  other_method : string → option (result value);
}.

(** [cloned[name]] when it is a function: the outcome of calling it. *)
Definition Response_method (r : Response) (name : string)
  : option (result value) :=
  if String.eqb name "json" then Some (json r)
  else if String.eqb name "text" then Some (Ok (VStr (text r)))
  else other_method r name.

(** What is passed to the transport.  [req_body] is [requestInit.body]:
    the serialized body of the request, or else the [body] of the client
    options, as it is.  [req_method] is the [method] of the request
    options, which every method of the client sets.  The other members of
    [requestInit] ([redirect] and the remaining client and request
    options) go to the transport as they are and are left out. *)
Record Request : Type := {
  req_url : value;
  req_method : option string;
  req_headers : Headers;
  req_body : option Body;
}.

Definition Transport : Type := Request → result Response.

(** The value that [coreFetch] resolves to: [{ data, response }] or
    [{ error, response }]. *)
Inductive FetchResult : Type :=
| DataResult (data : value) (response : Response)
| ErrorResult (error : value) (response : Response).

(** Reads of a response are recorded: which object was read, the
    response itself or a clone made for that read, and which member. *)
Inductive Target : Type := Original | FreshClone.

Inductive Event : Type :=
| Read (target : Target) (member : string).

(** Computations of [coreFetch]: the reads so far and a result. *)
Definition M (A : Type) : Type := list Event * result A.

Global Instance M_ret : MRet M := λ A a, ([], Ok a).

Global Instance M_bind : MBind M := λ A B k m,
  match m with
  | (log, Ok a) => let '(log', r) := k a in (log ++ log', r)
  | (log, Throw e) => (log, Throw e)
  end.

Definition lift {A} (r : result A) : M A := ([], r).

(** [response.clone().member], with the outcome [r] of the read. *)
Definition read_clone {A} (member : string) (r : result A) : M A :=
  ([Read FreshClone member], r).

(** [try { m } catch { h }] *)
Definition try_catch {A} (m h : M A) : M A :=
  match m with
  | (log, Ok a) => (log, Ok a)
  | (log, Throw _) => let '(log', r) := h in (log ++ log', r)
  end.

(** The end of [coreFetch], from the response of the transport on. *)
Definition classify (parseAs : string) (response : Response) : M FetchResult :=
  (* handle empty content *)
  if (status response =? 204)
     || bool_decide (Headers_get (headers response) "Content-Length" = Some "0")
  then
    mret (if ok response then DataResult (VObj []) response
          else ErrorResult (VObj []) response)
  else if ok response then
    (* parse response (falling back to .text() when necessary) *)
    if String.eqb parseAs "stream" then
      data ← read_clone "body" (Ok (body response));
      mret (DataResult data response)
    else
      data ← match Response_method response parseAs with
             | Some outcome => read_clone parseAs outcome
             | None => read_clone "text" (Ok (VStr (text response)))
             end;
      mret (DataResult data response)
  else
    (* handle errors (always parse as .json() or .text()) *)
    error ← try_catch (read_clone "json" (json response))
                      (read_clone "text" (Ok (VStr (text response))));
    mret (ErrorResult error response).

(* ===================================================================== *)
(** ** The client *)
(* ===================================================================== *)

(** A [querySerializer] option: a function, or options for
    [createQuerySerializer]. *)
Inductive QuerySerializer : Type :=
| QSFunction (f : value → result string)
| QSOptions (o : QuerySerializerOptions).

(** [{ ...a, ...b }] on query-serializer options: a property of [b]
    replaces that of [a]. *)
Definition spread_QuerySerializerOptions (a b : QuerySerializerOptions)
  : QuerySerializerOptions :=
  {| qs_array := from_option Some (qs_array a) (qs_array b);
     qs_object := from_option Some (qs_object a) (qs_object b);
     qs_allowReserved :=
       from_option Some (qs_allowReserved a) (qs_allowReserved b) |}.

Definition empty_QuerySerializerOptions : QuerySerializerOptions :=
  {| qs_array := None; qs_object := None; qs_allowReserved := None |}.

(** [clientOptions] of [createClient].  [co_body] is the [body] member, a
    default of [requestInit] that reaches the transport through
    [...baseOptions]; [None] when the client options have none. *)
Record ClientOptions : Type := {
  co_fetch : option Transport;
  co_querySerializer : option QuerySerializer;
  co_bodySerializer : option (Body → result Body);
  co_baseUrl : option string;
  co_headers : HeadersInit;
  co_body : option Body;
}.

(** [fetchOptions] of [coreFetch] and of the methods of the client. *)
Record FetchOptions : Type := {
  fo_fetch : option Transport;
  fo_headers : HeadersInit;
  fo_body : Body;
  fo_params : option Params;
  fo_parseAs : option string;
  fo_querySerializer : option QuerySerializer;
  fo_bodySerializer : option (Body → result Body);
  fo_method : option string;
}.

Definition empty_ClientOptions : ClientOptions :=
  {| co_fetch := None; co_querySerializer := None; co_bodySerializer := None;
     co_baseUrl := None; co_headers := HValue VUndefined; co_body := None |}.

Definition empty_FetchOptions : FetchOptions :=
  {| fo_fetch := None; fo_headers := HValue VUndefined;
     fo_body := BodyValue VUndefined; fo_params := None; fo_parseAs := None;
     fo_querySerializer := None; fo_bodySerializer := None;
     fo_method := None |}.

(** The query serializer that [coreFetch] uses: the request's function,
    else the request's options over the client's, else the client's. *)
Definition resolve_querySerializer
    (globalQuerySerializer requestQuerySerializer : option QuerySerializer)
  : value → result string :=
  let querySerializer :=
    match globalQuerySerializer with
    | Some (QSFunction f) => f
    | Some (QSOptions o) => createQuerySerializer (Some o)
    | None => createQuerySerializer None
    end in
  match requestQuerySerializer with
  | Some (QSFunction f) => f
  | Some (QSOptions o) =>
      createQuerySerializer (Some (spread_QuerySerializerOptions
        match globalQuerySerializer with
        | Some (QSOptions g) => g
        | _ => empty_QuerySerializerOptions
        end o))
  | None => querySerializer
  end.




Section Client.
(** [globalThis.fetch] and [JSON.stringify], which the runtime provides. *)
Variable globalThis_fetch : Transport.
Variable JSON_stringify : Body → result Body.

(** [defaultBodySerializer(body)] *)
Definition defaultBodySerializer (body : Body) : result Body :=
  JSON_stringify body.

(** The URL that [coreFetch] passes to the transport. *)
Definition coreFetch_finalURL (clientOptions : option ClientOptions)
    (baseUrl : string) (url : string) (fetchOptions : option FetchOptions)
  : result value :=
  let fo := default empty_FetchOptions fetchOptions in
  createFinalURL url
    {| baseUrl := baseUrl;
       params := Some (default no_params (fo_params fo));
       querySerializer :=
         resolve_querySerializer (clientOptions ≫= co_querySerializer)
           (fo_querySerializer fo) |}.

(** [coreFetch(url, fetchOptions)] up to [await fetch(finalURL,
    requestInit)]: the response of the transport.  The client is made
    from [clientOptions] and its normalized base URL is [baseUrl]. *)
Definition coreFetch_send (clientOptions : option ClientOptions)
    (baseUrl : string) (url : string) (fetchOptions : option FetchOptions)
  : result Response :=
  let fo := default empty_FetchOptions fetchOptions in
  let fetch :=
    default (default globalThis_fetch (clientOptions ≫= co_fetch))
      (fo_fetch fo) in
  let params := default no_params (fo_params fo) in
  let bodySerializer :=
    default (default defaultBodySerializer (clientOptions ≫= co_bodySerializer))
      (fo_bodySerializer fo) in
  (* URL *)
  finalURL ← coreFetch_finalURL clientOptions baseUrl url fetchOptions;
  let finalHeaders :=
    mergeHeaders [HValue DEFAULT_HEADERS;
                  from_option co_headers (HValue VUndefined) clientOptions;
                  fo_headers fo; header params] in
  (* fetch!  [requestInit] spreads [...baseOptions], the client's body
     among them; a truthy body of the request replaces it. *)
  requestInit_body ← (if Body_truthy (fo_body fo)
                      then Some <$> bodySerializer (fo_body fo)
                      else Ok (clientOptions ≫= co_body));
  let finalHeaders :=
    if is_FormData requestInit_body
    then Headers_delete "Content-Type" finalHeaders else finalHeaders in
  fetch {| req_url := finalURL; req_method := fo_method fo;
           req_headers := finalHeaders; req_body := requestInit_body |}.

(** [coreFetch(url, fetchOptions)]: the request, then the reading of the
    response. *)
Definition coreFetch (clientOptions : option ClientOptions)
    (baseUrl : string) (url : string) (fetchOptions : option FetchOptions)
  : M FetchResult :=
  let parseAs :=
    default "json" (fo_parseAs (default empty_FetchOptions fetchOptions)) in
  response ← lift (coreFetch_send clientOptions baseUrl url fetchOptions);
  classify parseAs response.



End Client.

(* ===================================================================== *)
(** ** The specification's formulations *)
(* ===================================================================== *)

(** A scalar: a boolean, a number or a string. *)
Definition is_scalar (v : value) : bool :=
  match v with
  | VBool _ | VNum _ | VStr _ => true
  | _ => false
  end.

(** The fragment of one query parameter, by the kind of its value. *)
Definition query_fragment (options : option QuerySerializerOptions)
    (kv : string * value) : result string :=
  if isArray kv.2 then serializeArrayParam kv.1 kv.2 (array_options options)
  else if typeof_object kv.2
  then serializeObjectParam kv.1 kv.2 (object_options options)
  else serializePrimitiveParam kv.1 kv.2 (qs_allowReserved_of options).

(** The parameters whose value is neither [null] nor [undefined]. *)
Definition defined_params (entries : list (string * value))
  : list (string * value) :=
  List.filter (λ kv, negb (is_nullish kv.2)) entries.

Definition nonempty (s : string) : bool := negb (String.eqb s "").

(** The query string as the specification words it: the non-empty
    fragments, joined with an ampersand. *)
Definition querySerializer_nonempty_joined
    (options : option QuerySerializerOptions)
    (entries : list (string * value)) : result string :=
  fragments ← mapM (query_fragment options) (defined_params entries);
  Ok (String_join "&" (List.filter nonempty fragments)).

(** The query string with every fragment joined, empty ones too. *)
Definition querySerializer_all_joined
    (options : option QuerySerializerOptions)
    (entries : list (string * value)) : result string :=
  fragments ← mapM (query_fragment options) (defined_params entries);
  Ok (String_join "&" fragments).

(** One value of a flattened object: as it is when [allowReserved] is
    [true] (what [join] prints for it), percent-encoded otherwise. *)
Definition flat_value (allowReserved : option bool) (v : value) : string :=
  if is_true allowReserved then join_element v else encodeURIComponent v.

(** [k1,v1,k2,v2,...] *)
Definition flatten_object (allowReserved : option bool)
    (props : list (string * value)) : string :=
  String_join ","
    (flat_map (λ kv, [kv.1; flat_value allowReserved kv.2]) props).

(** The wrapping of a flattened object by style. *)
Definition wrap_flat (style : option Style) (name flat : string) : string :=
  match style with
  | Some form => name +:+ "=" +:+ flat
  | Some label => "." +:+ flat
  | Some matrix => ";" +:+ name +:+ "=" +:+ flat
  | _ => flat
  end.

(** The exploded form of an object in [deepObject] style: one
    [name[key]=value] fragment per member, joined with an ampersand. *)
Definition deepObject_exploded (name : string) (allowReserved : option bool)
    (props : list (string * value)) : result string :=
  fragments ← mapM (λ kv,
      serializePrimitiveParam (name +:+ "[" +:+ kv.1 +:+ "]") kv.2 allowReserved)
    props;
  Ok (String_join "&" fragments).

(** The separator that the exploded forms of the [label] and [matrix]
    styles start with. *)
Definition explode_prefix (options : SerializerOptions) : string :=
  if style_is options label || style_is options matrix
  then explode_joiner options else "".

(** The fragment of one element or member on the paths that encode it
    with [serializePrimitiveParam]: nothing for [null] and [undefined]. *)
Definition member_fragment (name : string) (allowReserved : option bool)
    (v : value) : string :=
  if is_nullish v then ""
  else name +:+ "=" +:+
       (if is_true allowReserved then ToString v else encodeURIComponent v).

(** The name under which a member of an exploded object is encoded. *)
Definition member_name (options : SerializerOptions) (name key : string)
  : string :=
  if style_is options deepObject then name +:+ "[" +:+ key +:+ "]" else key.

(** A value that [serializePrimitiveParam] accepts. *)
Definition scalar_or_nullish (v : value) : bool := is_scalar v || is_nullish v.

(** [s.includes(pat)] *)
Definition String_includes (s pat : string) : bool :=
  bool_decide (is_Some (split_first pat s)).

(** No brace in [s]. *)
Fixpoint brace_free (s : string) : bool :=
  match s with
  | EmptyString => true
  | String c rest =>
      negb (Ascii.eqb c "{") && negb (Ascii.eqb c "}") && brace_free rest
  end.

(** The template [s] contains a placeholder: braces around a non-empty
    text without braces. *)
Definition has_placeholder (s : string) : Prop :=
  ∃ pre body post,
    s = pre +:+ "{" +:+ body +:+ "}" +:+ post
    ∧ body ≠ "" ∧ brace_free body = true.

(** Every entry that [mergeHeaders] visits, sources left to right and
    each source in its own order. *)
Definition merged_entries (allHeaders : list HeadersInit)
  : list (string * value) :=
  flat_map (λ headerSet, default [] (header_entries headerSet)) allHeaders.

Definition is_undefined (v : value) : bool :=
  match v with
  | VUndefined => true
  | _ => false
  end.

(** The entry names [k], case apart, and its value is not [undefined]. *)
Definition writes_to (k : string) (kv : string * value) : bool :=
  String.eqb (lower kv.1) (lower k) && negb (is_undefined kv.2).

(** The value of the last entry that writes to [k]. *)
Definition last_writer (k : string) (entries : list (string * value))
  : option value :=
  snd <$> last (List.filter (writes_to k) entries).

(** What the last writer leaves under its name: nothing when it is
    [null], its value otherwise. *)
Definition written (w : option value) : option string :=
  match w with
  | None | Some VNull => None
  | Some v => Some (normalize_header_value (ToString v))
  end.

(** The response has no content: status 204, or a [Content-Length] of
    exactly ["0"]. *)
Definition empty_content (response : Response) : Prop :=
  status response = 204
  ∨ Headers_get (headers response) "Content-Length" = Some "0".


(** The URL before the query is appended: the base URL and the template,
    through the path serializer when path parameters are given. *)
Definition url_before_query (pathname : string) (options : FinalURLOptions)
  : result value :=
  match params options ≫= path with
  | Some pathParams =>
      defaultPathSerializer (baseUrl options +:+ pathname) (Some pathParams)
  | None => Ok (VStr (baseUrl options +:+ pathname))
  end.

(** [n] question marks. *)
Fixpoint question_marks (n : nat) : string :=
  match n with
  | O => ""
  | S n => String "?" (question_marks n)
  end.

(** The number of question marks in [s]. *)
Fixpoint count_question (s : string) : nat :=
  match s with
  | EmptyString => O
  | String c rest =>
      ((if Ascii.eqb c "?" then 1 else 0) + count_question rest)%nat
  end.

(** A transport that answers every request with [response], and a
    stand-in for [JSON.stringify], for running the model. *)
Definition answering (response : Response) : Transport := λ _, Ok response.

Definition stringify_stub : Body → result Body :=
  λ _, Ok (BodyValue (VStr "{}")).

(** A transport that fails, telling which body it was given and whether
    form data came with a [Content-Type], for running the model. *)
Definition reject_with_body : Transport := λ request,
  Throw (Rejected
    match req_body request with
    | None => "no body"
    | Some (BodyValue v) => ToString v
    | Some (BodyFormData _) =>
        match Headers_get (req_headers request) "Content-Type" with
        | None => "form data, no Content-Type"
        | Some _ => "form data with Content-Type"
        end
    end).

(** The client options [co] with the given [body]. *)
Definition with_body (co : ClientOptions) (b : Body) : ClientOptions :=
  {| co_fetch := co_fetch co; co_querySerializer := co_querySerializer co;
     co_bodySerializer := co_bodySerializer co; co_baseUrl := co_baseUrl co;
     co_headers := co_headers co; co_body := Some b |}.

(** A response with the given flag, status and payload, the payload not
    being JSON. *)
Definition text_response (ok : bool) (status : Z) (headers : Headers)
    (text : string) : Response :=
  {| ok := ok; status := status; headers := headers; body := VObj [];
     text := text; json := Throw SyntaxError; other_method := λ _, None |}.

(** The separator of an array that is not exploded, by style. *)
Definition array_joiner (style : option Style) : string :=
  match style with
  | Some spaceDelimited => "%20"
  | Some pipeDelimited => "|"
  | _ => ","
  end.

(** The wrapping of an array that is not exploded, by style. *)
Definition array_wrap (style : option Style) (name joined : string) : string :=
  match style with
  | Some simple => joined
  | Some label => "." +:+ joined
  | Some matrix => ";" +:+ name +:+ "=" +:+ joined
  | _ => name +:+ "=" +:+ joined
  end.

(** An array or an object. *)
Definition nested (v : value) : bool := negb (is_nullish v) && typeof_object v.

(** An array or an object that holds an array or an object. *)
Definition deeply_nested (v : value) : bool :=
  match v with
  | VArr elems => existsb nested elems
  | VObj props => existsb (λ kv, nested kv.2) props
  | _ => false
  end.

(** The response beside the [data] or the [error]. *)
Definition result_response (r : FetchResult) : Response :=
  match r with
  | DataResult _ response | ErrorResult _ response => response
  end.

Definition event_target (ev : Event) : Target :=
  match ev with
  | Read target _ => target
  end.

(** The transport that a request uses: its own, else the client's, else
    the global one. *)
Definition resolved_fetch (globalThis_fetch : Transport)
    (clientOptions : option ClientOptions) (fo : FetchOptions) : Transport :=
  default (default globalThis_fetch (clientOptions ≫= co_fetch)) (fo_fetch fo).

(** The body serializer that a request uses: its own, else the client's,
    else the default one. *)
Definition resolved_bodySerializer (JSON_stringify : Body → result Body)
    (clientOptions : option ClientOptions) (fo : FetchOptions)
  : Body → result Body :=
  default (default (defaultBodySerializer JSON_stringify)
             (clientOptions ≫= co_bodySerializer))
    (fo_bodySerializer fo).

(** The header sources of a request, in the order [coreFetch] merges
    them: the defaults, the client's, the request's, [params.header]. *)
Definition header_sources (clientOptions : option ClientOptions)
    (fo : FetchOptions) : list HeadersInit :=
  [HValue DEFAULT_HEADERS;
   from_option co_headers (HValue VUndefined) clientOptions;
   fo_headers fo; header (default no_params (fo_params fo))].

(** Request options with the given query, body, body serializer and
    headers, and nothing else. *)
Definition request_options (q : value) (b : Body)
    (serializer : option (Body → result Body)) (h : HeadersInit)
  : FetchOptions :=
  {| fo_fetch := None; fo_headers := h; fo_body := b;
     fo_params := Some {| path := None; query := q;
                          header := HValue VUndefined |};
     fo_parseAs := None; fo_querySerializer := None;
     fo_bodySerializer := serializer; fo_method := Some "POST" |}.

(** Every character of [s] satisfies [p]. *)
Fixpoint String_forallb (p : ascii → bool) (s : string) : bool :=
  match s with
  | EmptyString => true
  | String c rest => p c && String_forallb p rest
  end.

(** No dollar sign in [s]: as a replacement text, [s] stands for itself. *)
Definition dollar_free (s : string) : bool :=
  String_forallb (λ c, negb (Ascii.eqb c "$")) s.

(** What an encoded value is made of: unreserved characters and percent
    escapes. *)
Definition uri_safe (c : ascii) : bool := uri_unreserved c || Ascii.eqb c "%".

(** The text that replaces the placeholder of a scalar parameter. *)
Definition placeholder_text (style : Style) (name : string) (v : value)
  : string :=
  match style with
  | matrix => ";" +:+ name +:+ "=" +:+ encodeURIComponent v
  | label => "." +:+ ToString v
  | _ => ToString v
  end.

(** The separator between the queries of two mappings when they are
    put together: an ampersand when both have a parameter that is not
    [null] or [undefined]. *)
Definition query_separator (entries1 entries2 : list (string * value))
  : string :=
  match defined_params entries1, defined_params entries2 with
  | _ :: _, _ :: _ => "&"
  | _, _ => ""
  end.

(** The keys that [Object.prototype] defines. *)
Definition Object_prototype_keys : list string :=
  ["constructor"; "hasOwnProperty"; "isPrototypeOf"; "propertyIsEnumerable";
   "toLocaleString"; "toString"; "valueOf"; "__proto__";
   "__defineGetter__"; "__defineSetter__"; "__lookupGetter__";
   "__lookupSetter__"].

(** The object has the key [k] itself. *)
Definition has_own (props : list (string * value)) (k : string) : bool :=
  existsb (λ kv, String.eqb kv.1 k) props.

(** The lookup [props[k]] goes on to [Object.prototype] and finds the key
    there: the case in which [get_prop] does not give what the program
    reads. *)
Definition reaches_prototype (props : list (string * value)) (k : string)
  : bool :=
  negb (has_own props k) && existsb (String.eqb k) Object_prototype_keys.

(** The parameter of a placeholder is missing, [null] or [undefined], and
    no inherited member stands in for it. *)
Definition unmatched (props : list (string * value)) (m : string) : bool :=
  negb (reaches_prototype props (parse_placeholder m).2)
  && is_nullish (get_prop props (parse_placeholder m).2).

(* ===================================================================== *)
(** ** The scenarios of the specification, run on the model *)
(* ===================================================================== *)

Example ToString_nested :
  ToString (VArr [VNum 1; VNull; VArr [VStr "a"; VNum (-2)]; VBool true])
  = "1,,a,-2,true".
Proof. reflexivity. Qed.

Example encodeURIComponent_sample :
  encodeURIComponent (VStr "a b&c/d=é") = "a%20b%26c%2Fd%3D%C3%A9".
Proof. reflexivity. Qed.

Example encodeURIComponent_unreserved :
  encodeURIComponent (VStr "AZaz09-_.!~*'()@[`{/:?#&=+,;$ %")
  = "AZaz09-_.!~*'()%40%5B%60%7B%2F%3A%3F%23%26%3D%2B%2C%3B%24%20%25".
Proof. reflexivity. Qed.

Example serializeArrayParam_simple :
  serializeArrayParam "id" (VArr [VNum 3; VNum 4; VNum 5])
    (opts (Some simple) (Some false) None) = Ok "3,4,5".
Proof. reflexivity. Qed.

Example serializeObjectParam_deepObject :
  serializeObjectParam "color"
    (VObj [("R", VNum 100); ("G", VNum 200); ("B", VNum 150)])
    (opts (Some deepObject) (Some true) None)
  = Ok "color[R]=100&color[G]=200&color[B]=150".
Proof. reflexivity. Qed.

Example querySerializer_sample :
  createQuerySerializer None
    (VObj [("a", VNum 1); ("skip", VNull); ("ids", VArr [VNum 2; VNum 3]);
           ("o", VObj [("k", VStr "x y")])])
  = Ok "a=1&ids=2&ids=3&o[k]=x%20y".
Proof. reflexivity. Qed.

Example match_PATH_PARAM_RE_sample :
  match_PATH_PARAM_RE None "/a/{id}/{}/{x{.y*}}/{;z}"
  = ["{id}"; "{.y*}"; "{;z}"].
Proof. reflexivity. Qed.

Example String_replace_sample :
  String_replace "/a/{id}/{id}" "{id}" "$$1$&" = "/a/$1{id}/{id}".
Proof. reflexivity. Qed.

Example defaultPathSerializer_sample :
  defaultPathSerializer "/users/{id}/teams/{team*}/{;m}/{.l}/{none}"
    (Some [("id", VStr "42"); ("team", VArr [VStr "a"; VStr "b"]);
           ("m", VNum 7); ("l", VBool true)])
  = Ok (VStr "/users/42/teams/a,b/;m=7/.true/{none}").
Proof. reflexivity. Qed.

Example createFinalURL_sample :
  createFinalURL "/users/{id}"
    {| baseUrl := "https://api.test"; querySerializer := createQuerySerializer None;
       params := Some {| path := Some [("id", VNum 5)];
                         query := VObj [("q", VStr "a b")];
                         header := HValue VUndefined |} |}
  = Ok (VStr "https://api.test/users/5?q=a%20b").
Proof. reflexivity. Qed.

Example mergeHeaders_sample :
  let merged := mergeHeaders
    [HValue DEFAULT_HEADERS;
     HValue (VObj [("X-A", VStr " 1 "); ("content-type", VNull)]);
     HValue VUndefined;
     HHeaders {[ "x-b" := "2" ]}] in
  Headers_get merged "x-a" = Some "1" ∧ Headers_get merged "X-B" = Some "2"
  ∧ Headers_get merged "Content-Type" = None.
Proof. vm_compute. auto. Qed.

(* ===================================================================== *)
(** ** Joining and pushing *)
(* ===================================================================== *)

Lemma String_join_cons sep p q rest :
  String_join sep (p :: q :: rest) = p +:+ sep +:+ String_join sep (q :: rest).
Proof. reflexivity. Qed.

Lemma String_append_cons c (a b : string) :
  String c a +:+ b = String c (a +:+ b).
Proof. reflexivity. Qed.

Lemma String_append_nil_l (b : string) : "" +:+ b = b.
Proof. reflexivity. Qed.

Lemma String_append_assoc (a b c : string) : (a +:+ b) +:+ c = a +:+ b +:+ c.
Proof.
  induction a as [|x a IH]; [done|].
  rewrite !String_append_cons. by f_equal.
Qed.

Lemma String_append_nil_r (a : string) : a +:+ "" = a.
Proof.
  induction a as [|x a IH]; [done|].
  rewrite String_append_cons. by f_equal.
Qed.

Lemma bind_Ok {A B} (a : A) (k : A → result B) : Ok a ≫= k = k a.
Proof. reflexivity. Qed.

Lemma bind_Throw {A B} e (k : A → result B) : Throw e ≫= k = Throw e.
Proof. reflexivity. Qed.

(** A loop that pushes one element per turn computes the elements in
    order and appends them to what was there. *)
Lemma push_each_mapM {A} (body : A → result value) items values :
  push_each body items values
  = (new ← mapM body items; Ok (values ++ new)).
Proof.
  revert values. induction items as [|x items IH]; intros values; simpl.
  - by rewrite app_nil_r.
  - destruct (body x) as [y|e]; simpl; [|done].
    rewrite IH. destruct (mapM body items) as [new|e]; simpl; [|done].
    by rewrite <- app_assoc.
Qed.

Lemma mapM_Ok {A B} (f : A → B) (l : list A) :
  mapM (λ x, Ok (f x)) l = Ok (List.map f l).
Proof.
  induction l as [|x l IH]; simpl; [done|].
  change (mapM (λ x, Ok (f x)) l) with (mapM (M:=result) (λ x, Ok (f x)) l).
  by rewrite IH.
Qed.

Lemma mapM_cons {A B} (f : A → result B) x l :
  mapM f (x :: l) = (y ← f x; k ← mapM f l; Ok (y :: k)).
Proof. reflexivity. Qed.

Lemma querySerializer_loop_cons options name v entries search :
  querySerializer_loop options ((name, v) :: entries) search
  = if is_nullish v then querySerializer_loop options entries search
    else s ← query_fragment options (name, v);
         querySerializer_loop options entries (search ++ [s]).
Proof.
  unfold query_fragment. cbn [querySerializer_loop fst snd].
  by destruct (is_nullish v), (isArray v), (typeof_object v).
Qed.

Lemma querySerializer_loop_mapM options entries search :
  querySerializer_loop options entries search
  = (fragments ← mapM (query_fragment options) (defined_params entries);
     Ok (search ++ fragments)).
Proof.
  revert search. induction entries as [|[name v] entries IH]; intros search.
  - simpl. by rewrite app_nil_r.
  - rewrite querySerializer_loop_cons.
    unfold defined_params. cbn [List.filter snd].
    fold (defined_params entries).
    destruct (is_nullish v); cbn [negb]; [apply IH|].
    rewrite mapM_cons.
    destruct (query_fragment options (name, v)) as [s|e]; [|done].
    rewrite !bind_Ok, IH.
    destruct (mapM _ _) as [fragments|e]; [|done].
    rewrite !bind_Ok. by rewrite <- app_assoc.
Qed.

(* ===================================================================== *)
(** ** The primitive encoder *)
(* ===================================================================== *)

(** C4. [serializePrimitiveParam] returns the empty string for
    [undefined] and [null], throws for every array and every object, and
    for a scalar returns [name=] followed by the value itself when
    [allowReserved] is [true] and by [encodeURIComponent(String(value))]
    otherwise. *)
Theorem serializePrimitiveParam_cases (name : string) (allowReserved : option bool) :
  serializePrimitiveParam name VUndefined allowReserved = Ok ""
  ∧ serializePrimitiveParam name VNull allowReserved = Ok ""
  ∧ (∀ elems,
       serializePrimitiveParam name (VArr elems) allowReserved
       = Throw NestedValueError)
  ∧ (∀ props,
       serializePrimitiveParam name (VObj props) allowReserved
       = Throw NestedValueError)
  ∧ (∀ v, is_scalar v = true → allowReserved = Some true →
       serializePrimitiveParam name v allowReserved
       = Ok (name +:+ "=" +:+ ToString v))
  ∧ (∀ v, is_scalar v = true → allowReserved ≠ Some true →
       serializePrimitiveParam name v allowReserved
       = Ok (name +:+ "=" +:+ percent_encode (ToString v))).
Proof.
  repeat split; try done.
  - intros v Hv ->. by destruct v.
  - intros v Hv Hr. unfold serializePrimitiveParam, is_true.
    rewrite bool_decide_eq_false_2 by done. by destruct v.
Qed.

(* ===================================================================== *)
(** ** The query serializer *)
(* ===================================================================== *)

(** C1, as stated, fails: the fragment of an empty array is the empty
    string, and it is joined like any other, so the query string starts
    with a separator that the non-empty fragments alone would not give. *)
Lemma createQuerySerializer_keeps_empty_fragment :
  createQuerySerializer None (VObj [("a", VArr []); ("b", VNum 1)])
  = Ok "&b=1"
  ∧ querySerializer_nonempty_joined None [("a", VArr []); ("b", VNum 1)]
    = Ok "b=1"
  ∧ createQuerySerializer None (VObj [("a", VArr []); ("b", VNum 1)])
    ≠ querySerializer_nonempty_joined None [("a", VArr []); ("b", VNum 1)].
Proof. repeat split; try reflexivity. discriminate. Qed.

(** C1 (amended). The query serializer visits the parameters in order,
    skips those that are [null] or [undefined], encodes an array with
    [serializeArrayParam] and the options [{style: form, explode: true}]
    under [options.array] and [allowReserved], an object with
    [serializeObjectParam] and [{style: deepObject, explode: true}] under
    [options.object] and [allowReserved], anything else with
    [serializePrimitiveParam], and joins every fragment, the empty ones
    too, with an ampersand. *)
Theorem createQuerySerializer_joins_all_fragments
    (options : option QuerySerializerOptions) (entries : list (string * value)) :
  createQuerySerializer options (VObj entries)
  = querySerializer_all_joined options entries
  ∧ array_options None = opts (Some form) (Some true) (Some false)
  ∧ object_options None = opts (Some deepObject) (Some true) (Some false)
  ∧ style (array_options options)
    = Some (default form ((options ≫= qs_array) ≫= style))
  ∧ explode (array_options options)
    = Some (default true ((options ≫= qs_array) ≫= explode))
  ∧ style (object_options options)
    = Some (default deepObject ((options ≫= qs_object) ≫= style))
  ∧ explode (object_options options)
    = Some (default true ((options ≫= qs_object) ≫= explode))
  ∧ allowReserved (array_options options)
    = Some (is_true (qs_allowReserved_of options))
  ∧ allowReserved (object_options options)
    = Some (is_true (qs_allowReserved_of options)).
Proof.
  split; [|repeat split].
  unfold createQuerySerializer, querySerializer_all_joined.
  cbn [ToBoolean typeof_object andb for_in].
  rewrite querySerializer_loop_mapM.
  by destruct (mapM _ _).
Qed.

(* ===================================================================== *)
(** ** The object encoder *)
(* ===================================================================== *)

Lemma Array_join_VStr sep (l : list string) :
  Array_join sep (List.map VStr l) = String_join sep l.
Proof.
  unfold Array_join. f_equal.
  induction l as [|x l IH]; simpl; [done|]. by f_equal.
Qed.

Lemma mapM_fmap_VStr {A} (f : A → result string) (l : list A) :
  mapM (λ x, VStr <$> f x) l = List.map VStr <$> mapM f l.
Proof.
  induction l as [|x l IH]; [done|].
  rewrite !mapM_cons, IH.
  destruct (f x) as [y|e]; [|done].
  by destruct (mapM f l).
Qed.

Lemma fold_left_push_pair {A} (a b : A → value) (l : list A) (acc : list value) :
  fold_left (λ values x, values ++ [a x; b x]) l acc
  = acc ++ flat_map (λ x, [a x; b x]) l.
Proof.
  revert acc. induction l as [|x l IH]; intros acc; simpl.
  - by rewrite app_nil_r.
  - rewrite IH. by rewrite <- app_assoc.
Qed.

Lemma flatten_object_join allowReserved (props : list (string * value)) :
  Array_join ","
    (flat_map (λ kv : string * value,
         [VStr kv.1;
          if is_true allowReserved then kv.2
          else VStr (encodeURIComponent kv.2)]) props)
  = flatten_object allowReserved props.
Proof.
  unfold Array_join, flatten_object. f_equal.
  induction props as [|[k v] props IH]; simpl; [done|].
  rewrite IH. f_equal. f_equal.
  unfold flat_value. by destruct (is_true allowReserved).
Qed.

(** The exploded branch of [serializeObjectParam], fragment by fragment. *)
Lemma serializeObjectParam_exploded name props options :
  style_is options deepObject || negb (is_false (explode options)) = true →
  serializeObjectParam name (VObj props) options
  = (fragments ← mapM (λ kv,
         serializePrimitiveParam (member_name options name kv.1) kv.2
           (allowReserved options)) props;
     Ok (explode_prefix options +:+ String_join (explode_joiner options) fragments)).
Proof.
  intros Hbranch. unfold serializeObjectParam.
  cbn [ToBoolean typeof_object negb orb for_in].
  replace (negb (style_is options deepObject) && is_false (explode options))
    with false by (by destruct (style_is options deepObject), (is_false _)).
  rewrite push_each_mapM.
  unfold member_name.
  rewrite (mapM_fmap_VStr (λ kv : string * value,
    serializePrimitiveParam
      (if style_is options deepObject
       then name +:+ "[" +:+ kv.1 +:+ "]" else kv.1) kv.2
      (allowReserved options))).
  destruct (mapM _ props) as [fragments|e]; [|done].
  cbn [fmap result_fmap mbind result_bind app].
  rewrite Array_join_VStr. unfold explode_prefix.
  by destruct (style_is options label || style_is options matrix).
Qed.

(** C2, as stated, fails for the [deepObject] style: [explode: false] is
    not honoured there and the members come out exploded. *)
Lemma serializeObjectParam_deepObject_never_flat :
  serializeObjectParam "color" (VObj [("R", VNum 100); ("G", VNum 200)])
    (opts (Some deepObject) (Some false) None)
  = Ok "color[R]=100&color[G]=200"
  ∧ wrap_flat (Some deepObject) "color"
      (flatten_object None [("R", VNum 100); ("G", VNum 200)])
    = "R,100,G,200"
  ∧ serializeObjectParam "color" (VObj [("R", VNum 100); ("G", VNum 200)])
      (opts (Some deepObject) (Some false) None)
    ≠ Ok (wrap_flat (Some deepObject) "color"
            (flatten_object None [("R", VNum 100); ("G", VNum 200)])).
Proof. repeat split; try reflexivity. discriminate. Qed.

(** C2 (amended). For an object, [explode: false] and a style other than
    [deepObject], [serializeObjectParam] flattens the members into
    [k1,v1,k2,v2,...] in the order of the keys, the values percent-encoded
    unless [allowReserved] is [true], and wraps the result by style:
    [name=flat] for [form], [.flat] for [label], [;name=flat] for
    [matrix], and the bare [flat] for any other (or no) style.  With the
    style [deepObject], [explode: false] is ignored: the result is the
    exploded form [name[k1]=v1&name[k2]=v2...]. *)
Theorem serializeObjectParam_explode_false (name : string)
    (props : list (string * value)) (options : SerializerOptions) :
  explode options = Some false →
  serializeObjectParam name (VObj props) options
  = if style_is options deepObject
    then deepObject_exploded name (allowReserved options) props
    else Ok (wrap_flat (style options) name
               (flatten_object (allowReserved options) props)).
Proof.
  intros Hexplode.
  destruct (style_is options deepObject) eqn:Hdeep.
  - rewrite serializeObjectParam_exploded by (by rewrite Hdeep).
    unfold deepObject_exploded, member_name, explode_prefix, explode_joiner,
      style_is in *.
    rewrite Hdeep. apply bool_decide_eq_true_1 in Hdeep. rewrite Hdeep.
    by destruct (mapM _ props).
  - unfold serializeObjectParam.
    cbn [ToBoolean typeof_object negb orb for_in].
    rewrite Hdeep, Hexplode.
    change (is_false (Some false)) with true. cbn [negb andb].
    rewrite (fold_left_push_pair (λ kv : string * value, VStr kv.1)
      (λ kv : string * value,
         if is_true (allowReserved options) then kv.2
         else VStr (encodeURIComponent kv.2))).
    cbn [app]. rewrite flatten_object_join.
    unfold wrap_flat. by destruct (style options) as [[]|].
Qed.

Lemma serializeObjectParam_explode_false_witness :
  explode (opts (Some matrix) (Some false) None) = Some false
  ∧ serializeObjectParam "color" (VObj [("R", VNum 100); ("G", VStr "a b")])
      (opts (Some matrix) (Some false) None)
    = Ok ";color=R,100,G,a%20b".
Proof.
  split; [reflexivity|].
  exact (serializeObjectParam_explode_false "color"
           [("R", VNum 100); ("G", VStr "a b")]
           (opts (Some matrix) (Some false) None) eq_refl).
Defined.

(* ===================================================================== *)
(** ** Values that are [null] or [undefined] *)
(* ===================================================================== *)

Lemma serializePrimitiveParam_member name allowReserved v :
  scalar_or_nullish v = true →
  serializePrimitiveParam name v allowReserved
  = Ok (member_fragment name allowReserved v).
Proof. by destruct v. Qed.

Lemma mapM_members {A} (name : A → string) (val : A → value) allowReserved
    (l : list A) :
  forallb (λ x, scalar_or_nullish (val x)) l = true →
  mapM (λ x, serializePrimitiveParam (name x) (val x) allowReserved) l
  = Ok (List.map (λ x, member_fragment (name x) allowReserved (val x)) l).
Proof.
  induction l as [|x l IH]; [done|].
  cbn [forallb List.map]. intros [Hx Hl]%andb_prop.
  rewrite mapM_cons, serializePrimitiveParam_member, IH by done.
  reflexivity.
Qed.

(** The exploded branch of [serializeArrayParam] for the styles that
    encode each element with [serializePrimitiveParam]. *)
Lemma serializeArrayParam_exploded name elems options :
  is_false (explode options) = false →
  style_is options simple || style_is options label = false →
  serializeArrayParam name (VArr elems) options
  = (fragments ← mapM (λ e,
         serializePrimitiveParam name e (allowReserved options)) elems;
     Ok (explode_prefix options +:+ String_join (explode_joiner options) fragments)).
Proof.
  intros Hexplode Hstyle. unfold serializeArrayParam.
  rewrite Hexplode, Hstyle, push_each_mapM.
  rewrite (mapM_fmap_VStr (λ e,
    serializePrimitiveParam name e (allowReserved options))).
  destruct (mapM _ elems) as [fragments|e]; [|done].
  cbn [fmap result_fmap mbind result_bind app].
  rewrite Array_join_VStr. unfold explode_prefix.
  by destruct (style_is options label || style_is options matrix).
Qed.

Lemma defined_params_idemp entries :
  defined_params (defined_params entries) = defined_params entries.
Proof.
  induction entries as [|[k v] entries IH]; [done|].
  unfold defined_params in *. cbn [List.filter snd].
  destruct (is_nullish v) eqn:Hv; cbn [negb]; [done|].
  cbn [List.filter snd]. rewrite Hv. cbn [negb]. by f_equal.
Qed.

(** C5, on the code: the claim does not hold of the program.  Where an
    element or a member is passed to [encodeURIComponent] directly (an
    array or an object with [explode: false], an array of style [simple]
    or [label]), a [null] or [undefined] one is printed as the text
    [null] or [undefined]: [serializeArrayParam] gives ["1,null"] for the
    array [[1, null]], [serializeObjectParam] gives ["o=k,undefined"], and
    the query serializer ["id=1,null"].  Everywhere else the same inputs
    print no such text: in the same branch [allowReserved: true] leaves
    the element to [join], which prints nothing for it; the exploded
    [form] array goes through [serializePrimitiveParam], which returns
    the empty string; and a parameter of the query that is [null] itself
    is skipped. *)
Theorem nullish_element_printed :
  (serializeArrayParam "id" (VArr [VNum 1; VNull])
     (opts (Some simple) (Some false) None) = Ok "1,null"
   ∧ String_includes "1,null" "null" = true)
  ∧ (serializeArrayParam "id" (VArr [VNum 1; VUndefined])
       (opts (Some label) (Some true) None) = Ok ".1.undefined"
     ∧ String_includes ".1.undefined" "undefined" = true)
  ∧ (serializeObjectParam "o" (VObj [("k", VUndefined)])
       (opts (Some form) (Some false) None) = Ok "o=k,undefined"
     ∧ String_includes "o=k,undefined" "undefined" = true)
  ∧ createQuerySerializer
      (Some {| qs_array := Some (opts None (Some false) None);
               qs_object := None; qs_allowReserved := None |})
      (VObj [("id", VArr [VNum 1; VNull])]) = Ok "id=1,null"
  ∧ (serializeArrayParam "id" (VArr [VNum 1; VNull])
       (opts (Some simple) (Some false) (Some true)) = Ok "1,"
     ∧ serializeObjectParam "o" (VObj [("k", VUndefined)])
         (opts (Some form) (Some false) (Some true)) = Ok "o=k,"
     ∧ serializeArrayParam "id" (VArr [VNum 1; VNull])
         (opts (Some form) (Some true) None) = Ok "id=1&"
     ∧ serializePrimitiveParam "id" VNull None = Ok ""
     ∧ createQuerySerializer
         (Some {| qs_array := Some (opts None (Some false) None);
                  qs_object := None; qs_allowReserved := None |})
         (VObj [("id", VNull)]) = Ok "").
Proof. repeat split; reflexivity. Qed.

(** X24. Where the program does keep [null] and [undefined] out of its
    output.  A query parameter whose value is [null] or [undefined] is
    left out of the query string altogether, and a path parameter with
    such a value (its own, or missing altogether: [unmatched]) leaves the
    URL as it is.  [serializePrimitiveParam]
    returns the empty string for such a value, so an array element or an
    object member that is [null] or [undefined] contributes an empty
    fragment, neither [key=] nor the text [null] or [undefined], wherever
    it is encoded with [serializePrimitiveParam]: in an object when
    [explode] is not [false] or the style is [deepObject], in an array
    when [explode] is not [false] and the style is neither [simple] nor
    [label].  The separator around the empty fragment stays. *)
Theorem nullish_values_leave_no_text :
  (∀ options entries,
     createQuerySerializer options (VObj entries)
     = createQuerySerializer options (VObj (defined_params entries)))
  ∧ (∀ name allowReserved v, is_nullish v = true →
       serializePrimitiveParam name v allowReserved = Ok ""
       ∧ member_fragment name allowReserved v = "")
  ∧ (∀ name elems options,
       is_false (explode options) = false →
       style_is options simple || style_is options label = false →
       forallb scalar_or_nullish elems = true →
       serializeArrayParam name (VArr elems) options
       = Ok (explode_prefix options +:+
             String_join (explode_joiner options)
               (List.map (member_fragment name (allowReserved options)) elems)))
  ∧ (∀ name props options,
       style_is options deepObject || negb (is_false (explode options)) = true →
       forallb (λ kv, scalar_or_nullish kv.2) props = true →
       serializeObjectParam name (VObj props) options
       = Ok (explode_prefix options +:+
             String_join (explode_joiner options)
               (List.map (λ kv, member_fragment (member_name options name kv.1)
                                  (allowReserved options) kv.2) props)))
  ∧ (∀ props nextURL m,
       unmatched props m = true →
       defaultPathSerializer_step (Some props) nextURL m = Ok nextURL).
Proof.
  repeat split.
  - intros options entries. unfold createQuerySerializer.
    cbn [ToBoolean typeof_object andb for_in].
    by rewrite !querySerializer_loop_mapM, defined_params_idemp.
  - by destruct v.
  - unfold member_fragment.
    by match goal with Hv : is_nullish _ = true |- _ => rewrite Hv end.
  - intros name elems options Hexplode Hstyle Hall.
    rewrite serializeArrayParam_exploded by done.
    by rewrite (mapM_members (λ _, name) id) by done.
  - intros name props options Hbranch Hall.
    rewrite serializeObjectParam_exploded by done.
    by rewrite (mapM_members (λ kv, member_name options name kv.1) snd) by done.
  - intros props nextURL m [_ Hnull]%andb_prop.
    unfold defaultPathSerializer_step.
    destruct (parse_placeholder m) as [[s e] paramName].
    cbn [snd] in Hnull. by rewrite Hnull.
Qed.

Lemma nullish_values_leave_no_text_witness :
  createQuerySerializer None
    (VObj [("a", VNull); ("ids", VArr [VNum 1; VNull; VNum 3]);
           ("o", VObj [("x", VUndefined); ("y", VStr "z")]); ("u", VUndefined)])
  = Ok "ids=1&&ids=3&&o[y]=z"
  ∧ serializeArrayParam "id" (VArr [VNum 1; VNull; VNum 3])
      (opts (Some matrix) (Some true) None) = Ok ";id=1;;id=3"
  ∧ serializeObjectParam "o" (VObj [("x", VUndefined); ("y", VStr "z")])
      (opts (Some deepObject) (Some false) None) = Ok "&o[y]=z"
  ∧ defaultPathSerializer_step (Some [("id", VNull)]) "/x/{id}/{.tag*}" "{id}"
    = Ok "/x/{id}/{.tag*}"
  ∧ defaultPathSerializer_step (Some [("id", VNull)]) "/x/{id}/{.tag*}"
      "{.tag*}" = Ok "/x/{id}/{.tag*}".
Proof.
  pose proof nullish_values_leave_no_text
    as (Hquery & _ & Harray & Hobject & Hpath).
  split; [|split; [|split; [|split]]].
  - rewrite Hquery. reflexivity.
  - rewrite Harray by reflexivity. reflexivity.
  - rewrite Hobject by reflexivity. reflexivity.
  - exact (Hpath [("id", VNull)] "/x/{id}/{.tag*}" "{id}" eq_refl).
  - exact (Hpath [("id", VNull)] "/x/{id}/{.tag*}" "{.tag*}" eq_refl).
Defined.

(* ===================================================================== *)
(** ** Templates without a placeholder *)
(* ===================================================================== *)

Lemma has_placeholder_cons c s : has_placeholder s → has_placeholder (String c s).
Proof.
  intros (pre & body & post & -> & Hne & Hfree).
  by exists (String c pre), body, post.
Qed.

(** When the matcher finds something in [s], either [s] closes the
    placeholder that is open, or [s] has a placeholder of its own. *)
Lemma match_PATH_PARAM_RE_found inside s :
  match_PATH_PARAM_RE inside s ≠ [] →
  (∃ open body rest,
      inside = Some open ∧ s = body +:+ "}" +:+ rest
      ∧ brace_free body = true ∧ open +:+ body ≠ "")
  ∨ has_placeholder s.
Proof.
  revert inside. induction s as [|c s IH]; intros inside Hfound; [done|].
  cbn [match_PATH_PARAM_RE] in Hfound.
  destruct (Ascii.eqb c "{") eqn:Hopen.
  { apply Ascii.eqb_eq in Hopen as ->. right.
    destruct (IH _ Hfound) as [(open & body & rest & [= <-] & -> & Hfree & Hne)|H].
    - exists "", body, rest. repeat split; [|done]. by intros ->.
    - by apply has_placeholder_cons. }
  destruct (Ascii.eqb c "}") eqn:Hclose.
  { apply Ascii.eqb_eq in Hclose as ->.
    destruct inside as [[|b open]|].
    - right. apply has_placeholder_cons.
      by destruct (IH _ Hfound) as [(? & ? & ? & [=] & _)|H].
    - left. by exists (String b open), "", s.
    - right. apply has_placeholder_cons.
      by destruct (IH _ Hfound) as [(? & ? & ? & [=] & _)|H]. }
  destruct (IH _ Hfound) as [(open' & body & rest & Hinside & -> & Hfree & Hne)|H].
  - destruct inside as [open|]; [|done]. left.
    exists open, (String c body), rest. repeat split.
    + cbn [brace_free]. by rewrite Hopen, Hclose, Hfree.
    + by destruct open.
  - right. by apply has_placeholder_cons.
Qed.

Lemma match_PATH_PARAM_RE_none s :
  ¬ has_placeholder s → match_PATH_PARAM_RE None s = [].
Proof.
  intros Hnone. destruct (match_PATH_PARAM_RE None s) eqn:Hm; [done|].
  destruct (match_PATH_PARAM_RE_found None s) as [(? & ? & ? & [=] & _)|H];
    [by rewrite Hm|done].
Qed.

(** The first half of C3: without a placeholder the path serializer
    returns [undefined]. *)
Lemma defaultPathSerializer_no_placeholder pathname pathParams :
  ¬ has_placeholder pathname →
  defaultPathSerializer pathname pathParams = Ok VUndefined.
Proof.
  intros Hnone. unfold defaultPathSerializer.
  by rewrite match_PATH_PARAM_RE_none.
Qed.

(** Without path parameters the URL is the base URL, the template and
    the query. *)
Lemma createFinalURL_without_path_params pathname options p :
  params options = Some p → path p = None →
  createFinalURL pathname options
  = (q ← querySerializer options (nullish_coalesce (query p) (VObj []));
     Ok (VStr (baseUrl options +:+ pathname +:+
               (if nonempty (strip_leading_question q)
                then "?" +:+ strip_leading_question q else "")))).
Proof.
  intros Hp Hpath. unfold createFinalURL. rewrite Hp. cbn. rewrite Hpath. cbn.
  destruct (querySerializer options _) as [q|e]; [|done]. cbn.
  unfold nonempty. destruct (String.eqb (strip_leading_question q) ""); cbn.
  - by rewrite String_append_nil_r.
  - by rewrite String_append_assoc.
Qed.

(** C3, second half, on the code: when path parameters are supplied
    with a template that has no placeholder, [createFinalURL] takes the
    [undefined] of the path serializer for the URL.  The result is
    [undefined], or the text [undefined] followed by the query, and not
    the base URL and the template. *)
Theorem createFinalURL_loses_template_without_placeholder
    (pathname : string) (options : FinalURLOptions) (p : Params)
    (pathParams : list (string * value)) :
  ¬ has_placeholder (baseUrl options +:+ pathname) →
  params options = Some p → path p = Some pathParams →
  createFinalURL pathname options
  = (q ← querySerializer options (nullish_coalesce (query p) (VObj []));
     Ok (if nonempty (strip_leading_question q)
         then VStr ("undefined?" +:+ strip_leading_question q)
         else VUndefined)).
Proof.
  intros Hnone Hp Hpath. unfold createFinalURL. rewrite Hp. cbn. rewrite Hpath.
  cbn [ToString]. rewrite defaultPathSerializer_no_placeholder by done. cbn.
  destruct (querySerializer options _) as [q|e]; [|done]. cbn.
  unfold nonempty. by destruct (String.eqb (strip_leading_question q) "").
Qed.

Lemma match_PATH_PARAM_RE_closes body post open :
  brace_free body = true → open +:+ body ≠ "" →
  match_PATH_PARAM_RE (Some open) (body +:+ "}" +:+ post) ≠ [].
Proof.
  revert open. induction body as [|c body IH]; intros open Hfree Hne.
  - rewrite String_append_nil_r in Hne. by destruct open.
  - cbn [brace_free] in Hfree.
    apply andb_prop in Hfree as [[Hopen Hclose]%andb_prop Hfree].
    apply negb_true_iff in Hopen, Hclose.
    rewrite String_append_cons. cbn [match_PATH_PARAM_RE].
    rewrite Hopen, Hclose. cbn [fmap option_fmap option_map].
    apply IH; [done|]. by destruct open.
Qed.

Lemma match_PATH_PARAM_RE_complete s inside :
  has_placeholder s → match_PATH_PARAM_RE inside s ≠ [].
Proof.
  intros (pre & body & post & -> & Hne & Hfree). revert inside.
  induction pre as [|c pre IH]; intros inside.
  - rewrite String_append_nil_l.
    change ("{" +:+ body +:+ "}" +:+ post)
      with (String "{" (body +:+ "}" +:+ post)).
    cbn [match_PATH_PARAM_RE Ascii.eqb Bool.eqb].
    by apply match_PATH_PARAM_RE_closes.
  - rewrite String_append_cons. cbn [match_PATH_PARAM_RE].
    destruct (Ascii.eqb c "{"); [apply IH|].
    destruct (Ascii.eqb c "}"); [|apply IH].
    destruct inside as [[|b open]|]; [apply IH|done|apply IH].
Qed.

(** The matcher finds nothing exactly in the templates without a
    placeholder. *)
Lemma match_PATH_PARAM_RE_nil_iff s :
  match_PATH_PARAM_RE None s = [] ↔ ¬ has_placeholder s.
Proof.
  split; [|apply match_PATH_PARAM_RE_none].
  intros Hnil Hhas. by apply (match_PATH_PARAM_RE_complete s None).
Qed.

Lemma createFinalURL_loses_template_witness :
  createFinalURL "/users"
    {| baseUrl := "https://x"; querySerializer := createQuerySerializer None;
       params := Some {| path := Some [("id", VNum 1)];
                         query := VObj [("q", VStr "a")];
                         header := HValue VUndefined |} |}
  = Ok (VStr "undefined?q=a").
Proof.
  refine (createFinalURL_loses_template_without_placeholder "/users"
    {| baseUrl := "https://x"; querySerializer := createQuerySerializer None;
       params := Some {| path := Some [("id", VNum 1)];
                         query := VObj [("q", VStr "a")];
                         header := HValue VUndefined |} |}
    _ [("id", VNum 1)] _ eq_refl eq_refl).
  apply match_PATH_PARAM_RE_nil_iff. reflexivity.
Defined.

(** The same request without a query, and without path parameters. *)
Example createFinalURL_undefined :
  createFinalURL "/users"
    {| baseUrl := "https://x"; querySerializer := createQuerySerializer None;
       params := Some {| path := Some []; query := VUndefined;
                         header := HValue VUndefined |} |}
  = Ok VUndefined
  ∧ createFinalURL "/users"
      {| baseUrl := "https://x"; querySerializer := createQuerySerializer None;
         params := Some {| path := None; query := VObj [("q", VStr "a")];
                           header := HValue VUndefined |} |}
    = Ok (VStr "https://x/users?q=a").
Proof. split; reflexivity. Qed.

(* ===================================================================== *)
(** ** Merging headers *)
(* ===================================================================== *)

Lemma mergeHeaders_fold allHeaders (headers : Headers) :
  fold_left (λ headers headerSet,
      match header_entries headerSet with
      | None => headers
      | Some entries => fold_left mergeHeaders_entry entries headers
      end) allHeaders headers
  = fold_left mergeHeaders_entry (merged_entries allHeaders) headers.
Proof.
  revert headers. induction allHeaders as [|hs rest IH]; intros headers; [done|].
  cbn [fold_left merged_entries flat_map]. rewrite fold_left_app, IH.
  by destruct (header_entries hs).
Qed.

Lemma last_writer_snoc k entries kv :
  last_writer k (entries ++ [kv])
  = if writes_to k kv then Some kv.2 else last_writer k entries.
Proof.
  unfold last_writer. rewrite List.filter_app. cbn [List.filter].
  destruct (writes_to k kv).
  - by rewrite last_snoc.
  - by rewrite app_nil_r.
Qed.

Lemma mergeHeaders_entry_get (headers : Headers) kv k :
  Headers_get (mergeHeaders_entry headers kv) k
  = if writes_to k kv then written (Some kv.2) else Headers_get headers k.
Proof.
  unfold writes_to, Headers_get. destruct kv as [k' v]. cbn [fst snd].
  destruct (String.eqb_spec (lower k') (lower k)) as [Heq|Hne].
  - destruct v; cbn; unfold Headers_delete, Headers_set; cbn [fst snd];
      rewrite ?Heq, ?lookup_delete_eq, ?lookup_insert_eq; done.
  - destruct v; cbn; unfold Headers_delete, Headers_set; cbn [fst snd];
      rewrite ?lookup_delete_ne, ?lookup_insert_ne by done; done.
Qed.

Lemma fold_mergeHeaders_entry_get entries (headers : Headers) k :
  Headers_get (fold_left mergeHeaders_entry entries headers) k
  = match last_writer k entries with
    | Some v => written (Some v)
    | None => Headers_get headers k
    end.
Proof.
  induction entries as [|kv entries IH] using rev_ind; [done|].
  rewrite fold_left_app. cbn [fold_left].
  rewrite mergeHeaders_entry_get, last_writer_snoc.
  by destruct (writes_to k kv).
Qed.

(** C6. [mergeHeaders] goes through its sources from left to right and
    through the entries of each; under a name, compared without regard to
    case, what remains is what the last entry of that name whose value is
    not [undefined] wrote: nothing if its value is [null], its value
    otherwise.  Merging [{A: "1"}] and [{A: null}] leaves no [A];
    merging [{A: "1"}] and [{A: undefined}] leaves [A] as ["1"]. *)
Theorem mergeHeaders_last_writer_wins (allHeaders : list HeadersInit) (k : string) :
  Headers_get (mergeHeaders allHeaders) k
  = written (last_writer k (merged_entries allHeaders))
  ∧ mergeHeaders [HValue (VObj [("A", VStr "1")]); HValue (VObj [("A", VNull)])]
    = ∅
  ∧ mergeHeaders [HValue (VObj [("A", VStr "1")]);
                  HValue (VObj [("A", VUndefined)])]
    = {[ "a" := "1" ]}
  ∧ Headers_get (mergeHeaders [HValue (VObj [("A", VStr "1")]);
                               HValue (VObj [("A", VUndefined)])]) "A"
    = Some "1".
Proof.
  split; [|repeat split].
  - unfold mergeHeaders. rewrite mergeHeaders_fold, fold_mergeHeaders_entry_get.
    by destruct (last_writer k _).
Qed.

(* ===================================================================== *)
(** ** Reading the response *)
(* ===================================================================== *)

Lemma classify_empty_content parseAs response :
  empty_content response →
  classify parseAs response
  = ([], Ok (if ok response then DataResult (VObj []) response
             else ErrorResult (VObj []) response)).
Proof.
  intros Hempty. unfold classify.
  assert ((status response =? 204)
          || bool_decide (Headers_get (headers response) "Content-Length"
                          = Some "0") = true) as ->; [|done].
  apply orb_true_iff. destruct Hempty as [H204|Hlen].
  - left. by apply Z.eqb_eq.
  - right. by apply bool_decide_eq_true_2.
Qed.

Lemma classify_not_ok parseAs response :
  ¬ empty_content response → ok response = false →
  classify parseAs response
  = match json response with
    | Ok error => ([Read FreshClone "json"], Ok (ErrorResult error response))
    | Throw _ =>
        ([Read FreshClone "json"; Read FreshClone "text"],
         Ok (ErrorResult (VStr (text response)) response))
    end.
Proof.
  intros Hcontent Hok. unfold classify.
  assert ((status response =? 204)
          || bool_decide (Headers_get (headers response) "Content-Length"
                          = Some "0") = false) as ->.
  { apply orb_false_iff. split.
    - apply Z.eqb_neq. intros H. apply Hcontent. by left.
    - apply bool_decide_eq_false_2. intros H. apply Hcontent. by right. }
  rewrite Hok. by destruct (json response).
Qed.

Section ClientProperties.
Variable globalThis_fetch : Transport.
Variable JSON_stringify : Body → result Body.

Lemma coreFetch_sent clientOptions baseUrl url fetchOptions response :
  coreFetch_send globalThis_fetch JSON_stringify clientOptions baseUrl url
    fetchOptions = Ok response →
  coreFetch globalThis_fetch JSON_stringify clientOptions baseUrl url fetchOptions
  = classify (default "json"
                (fo_parseAs (default empty_FetchOptions fetchOptions)))
      response.
Proof.
  intros Hsent. unfold coreFetch. rewrite Hsent. unfold lift.
  cbn [mbind M_bind]. by destruct (classify _ response).
Qed.

(** C7. When the transport answers with status 204 or with a
    [Content-Length] of exactly ["0"], [coreFetch] returns an empty
    object beside the response, as [data] when the response is [ok] and as
    [error] when it is not, and reads nothing of the body: no clone is
    made and no parse method is called, whatever the body holds. *)
Theorem coreFetch_empty_content (clientOptions : option ClientOptions)
    (baseUrl url : string) (fetchOptions : option FetchOptions)
    (response : Response) :
  coreFetch_send globalThis_fetch JSON_stringify clientOptions baseUrl url
    fetchOptions = Ok response →
  empty_content response →
  coreFetch globalThis_fetch JSON_stringify clientOptions baseUrl url fetchOptions
  = ([], Ok (if ok response then DataResult (VObj []) response
             else ErrorResult (VObj []) response)).
Proof.
  intros Hsent Hempty.
  rewrite (coreFetch_sent _ _ _ _ _ Hsent).
  by apply classify_empty_content.
Qed.

(** C8. When the transport answers with a response that is not [ok] and
    has content, [coreFetch] parses the body as JSON on a clone; if that
    fails it reads the body as text on another clone.  Either way it
    returns [{error, response}] and does not throw: [error] is the parsed
    value, or the text of the body when the body is not JSON. *)
Theorem coreFetch_error_body (clientOptions : option ClientOptions)
    (baseUrl url : string) (fetchOptions : option FetchOptions)
    (response : Response) :
  coreFetch_send globalThis_fetch JSON_stringify clientOptions baseUrl url
    fetchOptions = Ok response →
  ¬ empty_content response → ok response = false →
  coreFetch globalThis_fetch JSON_stringify clientOptions baseUrl url fetchOptions
  = match json response with
    | Ok error => ([Read FreshClone "json"], Ok (ErrorResult error response))
    | Throw _ =>
        ([Read FreshClone "json"; Read FreshClone "text"],
         Ok (ErrorResult (VStr (text response)) response))
    end.
Proof.
  intros Hsent Hcontent Hok.
  rewrite (coreFetch_sent _ _ _ _ _ Hsent).
  by apply classify_not_ok.
Qed.

End ClientProperties.

Lemma coreFetch_empty_content_witness :
  coreFetch (answering (text_response false 204 ∅ "not json")) stringify_stub
    None "" "/ping" None
  = ([], Ok (ErrorResult (VObj []) (text_response false 204 ∅ "not json")))
  ∧ coreFetch
      (answering (text_response true 200 {[ "content-length" := "0" ]} ""))
      stringify_stub None "" "/ping" None
    = ([], Ok (DataResult (VObj [])
                 (text_response true 200 {[ "content-length" := "0" ]} ""))).
Proof.
  split.
  - apply (coreFetch_empty_content
             (answering (text_response false 204 ∅ "not json")) stringify_stub
             None "" "/ping" None (text_response false 204 ∅ "not json")).
    + reflexivity.
    + left. reflexivity.
  - apply (coreFetch_empty_content
             (answering (text_response true 200 {[ "content-length" := "0" ]} ""))
             stringify_stub None "" "/ping" None
             (text_response true 200 {[ "content-length" := "0" ]} "")).
    + reflexivity.
    + right. reflexivity.
Defined.

Lemma coreFetch_error_body_witness :
  coreFetch (answering (text_response false 500 ∅ "Internal Server Error"))
    stringify_stub None "" "/ping" None
  = ([Read FreshClone "json"; Read FreshClone "text"],
     Ok (ErrorResult (VStr "Internal Server Error")
           (text_response false 500 ∅ "Internal Server Error"))).
Proof.
  apply (coreFetch_error_body
           (answering (text_response false 500 ∅ "Internal Server Error"))
           stringify_stub None "" "/ping" None
           (text_response false 500 ∅ "Internal Server Error")).
  - reflexivity.
  - intros [H|H]; discriminate H.
  - reflexivity.
Defined.

(* ===================================================================== *)
(** ** The base URL *)
(* ===================================================================== *)

Lemma String_length_append (a b : string) :
  String.length (a +:+ b) = (String.length a + String.length b)%nat.
Proof.
  induction a as [|c a IH]; [done|].
  rewrite String_append_cons. cbn [String.length]. by rewrite IH.
Qed.

Lemma substring_prefix (a b : string) :
  String.substring 0 (String.length a) (a +:+ b) = a.
Proof.
  induction a as [|c a IH].
  - by destruct b.
  - rewrite String_append_cons. cbn [String.length String.substring].
    by rewrite IH.
Qed.

Lemma rev_app_append (a b acc : string) :
  String.rev_app (a +:+ b) acc = String.rev_app b (String.rev_app a acc).
Proof.
  revert acc. induction a as [|c a IH]; intros acc; [done|].
  rewrite String_append_cons. cbn [String.rev_app]. apply IH.
Qed.






(* ===================================================================== *)
(** ** The query separator *)
(* ===================================================================== *)

Lemma strip_leading_question_marks q :
  ∃ n, q = question_marks n +:+ strip_leading_question q.
Proof.
  induction q as [|c q [n IH]]; [by exists O|].
  cbn [strip_leading_question].
  destruct (Ascii.eqb c "?") eqn:Hc.
  - apply Ascii.eqb_eq in Hc as ->. exists (S n).
    cbn [question_marks]. rewrite String_append_cons. by f_equal.
  - by exists O.
Qed.

Lemma strip_leading_question_start q :
  startsWith (strip_leading_question q) "?" = false.
Proof.
  induction q as [|c q IH]; [done|].
  cbn [strip_leading_question].
  destruct (Ascii.eqb c "?") eqn:Hc; [done|].
  unfold startsWith. cbn [String.prefix].
  destruct (ascii_dec "?" c) as [<-|]; [|done].
  by rewrite Ascii.eqb_refl in Hc.
Qed.

Lemma strip_leading_question_only n :
  strip_leading_question (question_marks n) = "".
Proof. induction n as [|n IH]; [done|]. by cbn. Qed.

Lemma count_question_append (a b : string) :
  count_question (a +:+ b) = (count_question a + count_question b)%nat.
Proof.
  induction a as [|c a IH]; [done|].
  rewrite String_append_cons. cbn [count_question]. rewrite IH. lia.
Qed.

Lemma createFinalURL_stages pathname options p :
  params options = Some p →
  createFinalURL pathname options
  = (u ← url_before_query pathname options;
     q ← querySerializer options (nullish_coalesce (query p) (VObj []));
     Ok (if nonempty (strip_leading_question q)
         then VStr (ToString u +:+ "?" +:+ strip_leading_question q)
         else u)).
Proof.
  intros Hp. unfold createFinalURL, url_before_query. rewrite Hp.
  cbn [ToString from_option]. by destruct (Some p ≫= path).
Qed.

(** C10. [createFinalURL] removes every leading question mark from what
    the query serializer returns and only then decides: if nothing is
    left, also when the serializer returned question marks only, the URL
    gets no query and no question mark; otherwise it gets one question
    mark and what is left, which does not start with a question mark.  So
    [createFinalURL] adds at most one question mark to those of the URL
    and of the query. *)
Theorem createFinalURL_one_separator (pathname : string)
    (options : FinalURLOptions) (p : Params) (u : value) (q : string) :
  params options = Some p →
  url_before_query pathname options = Ok u →
  querySerializer options (nullish_coalesce (query p) (VObj [])) = Ok q →
  (∃ n, q = question_marks n +:+ strip_leading_question q)
  ∧ startsWith (strip_leading_question q) "?" = false
  ∧ createFinalURL pathname options
    = Ok (if nonempty (strip_leading_question q)
          then VStr (ToString u +:+ "?" +:+ strip_leading_question q)
          else u)
  ∧ ((∃ n, q = question_marks n) → createFinalURL pathname options = Ok u)
  ∧ count_question (ToString u +:+ "?" +:+ strip_leading_question q)
    = (count_question (ToString u) + 1
       + count_question (strip_leading_question q))%nat
  ∧ (count_question (ToString u) = O →
     count_question (strip_leading_question q) = O →
     ∃ url, createFinalURL pathname options = Ok url
            ∧ (count_question (ToString url) ≤ 1)%nat).
Proof.
  intros Hp Hu Hq.
  assert (createFinalURL pathname options
          = Ok (if nonempty (strip_leading_question q)
                then VStr (ToString u +:+ "?" +:+ strip_leading_question q)
                else u)) as Hurl.
  { by rewrite (createFinalURL_stages _ _ _ Hp), Hu, Hq. }
  assert (count_question (ToString u +:+ "?" +:+ strip_leading_question q)
          = (count_question (ToString u) + 1
             + count_question (strip_leading_question q))%nat) as Hcount.
  { rewrite !count_question_append. cbn. lia. }
  split; [apply strip_leading_question_marks|].
  split; [apply strip_leading_question_start|].
  split; [done|]. split; [|split; [done|]].
  - intros [n ->]. rewrite Hurl.
    by rewrite strip_leading_question_only.
  - intros Hu0 Hq0. rewrite Hurl.
    destruct (nonempty (strip_leading_question q)); eexists; split; try done.
    + cbn [ToString]. rewrite Hcount. lia.
    + lia.
Qed.

Lemma createFinalURL_one_separator_witness :
  createFinalURL "/users"
    {| baseUrl := "https://x"; querySerializer := λ _, Ok "??a=1";
       params := Some {| path := None; query := VUndefined;
                         header := HValue VUndefined |} |}
  = Ok (VStr "https://x/users?a=1")
  ∧ createFinalURL "/users"
      {| baseUrl := "https://x"; querySerializer := λ _, Ok "???";
         params := Some {| path := None; query := VUndefined;
                           header := HValue VUndefined |} |}
    = Ok (VStr "https://x/users").
Proof.
  split.
  - exact (proj1 (proj2 (proj2
      (createFinalURL_one_separator "/users"
         {| baseUrl := "https://x"; querySerializer := λ _, Ok "??a=1";
            params := Some {| path := None; query := VUndefined;
                              header := HValue VUndefined |} |}
         {| path := None; query := VUndefined; header := HValue VUndefined |}
         (VStr "https://x/users") "??a=1" eq_refl eq_refl eq_refl)))).
  - exact (proj1 (proj2 (proj2
      (createFinalURL_one_separator "/users"
         {| baseUrl := "https://x"; querySerializer := λ _, Ok "???";
            params := Some {| path := None; query := VUndefined;
                              header := HValue VUndefined |} |}
         {| path := None; query := VUndefined; header := HValue VUndefined |}
         (VStr "https://x/users") "???" eq_refl eq_refl eq_refl)))).
Defined.

(* ===================================================================== *)
(** ** Further properties of the serializers *)
(* ===================================================================== *)

(** X1. In the default query style, [form] with [explode], an array of
    scalars is encoded as one [name=value] fragment per element, the value
    percent-encoded, joined with an ampersand. *)
Theorem serializeArrayParam_form_exploded (name : string) (elems : list value)
    (reserved : option bool) :
  forallb is_scalar elems = true → reserved ≠ Some true →
  serializeArrayParam name (VArr elems) (opts (Some form) (Some true) reserved)
  = Ok (String_join "&"
          (List.map (λ e, name +:+ "=" +:+ encodeURIComponent e) elems)).
Proof.
  intros Hscalar Hreserved.
  rewrite serializeArrayParam_exploded by done.
  cbn [opts allowReserved].
  assert (List.map (member_fragment name reserved) elems
          = List.map (λ e, name +:+ "=" +:+ encodeURIComponent e) elems
          ∧ forallb scalar_or_nullish elems = true) as [Hmap Hall].
  { induction elems as [|e elems IH]; [done|].
    cbn [forallb] in Hscalar. apply andb_prop in Hscalar as [He Helems].
    destruct (IH Helems) as [IHmap IHall]. split.
    - cbn [List.map]. rewrite IHmap. f_equal.
      unfold member_fragment, is_true.
      rewrite bool_decide_eq_false_2 by done. by destruct e.
    - cbn [forallb]. rewrite IHall. unfold scalar_or_nullish.
      by rewrite He. }
  rewrite (mapM_members (λ _, name) id) by done.
  cbn [mbind result_bind]. unfold explode_prefix, explode_joiner, style_is.
  cbn [opts style]. rewrite <- Hmap. reflexivity.
Qed.

Lemma serializeArrayParam_form_exploded_witness :
  serializeArrayParam "id" (VArr [VNum 3; VStr "a b"; VBool false])
    (opts (Some form) (Some true) None)
  = Ok "id=3&id=a%20b&id=false".
Proof.
  refine (serializeArrayParam_form_exploded "id"
            [VNum 3; VStr "a b"; VBool false] None eq_refl _).
  discriminate.
Defined.

(** X2. A set of query parameters whose values are all [null] or
    [undefined] is encoded as the empty string. *)
Theorem createQuerySerializer_all_nullish
    (options : option QuerySerializerOptions) (entries : list (string * value)) :
  forallb (λ kv, is_nullish kv.2) entries = true →
  createQuerySerializer options (VObj entries) = Ok "".
Proof.
  intros Hnull. unfold createQuerySerializer.
  cbn [ToBoolean typeof_object andb for_in].
  rewrite querySerializer_loop_mapM.
  replace (defined_params entries) with (@nil (string * value)); [done|].
  induction entries as [|[k v] entries IH]; [done|].
  cbn [forallb snd] in Hnull. apply andb_prop in Hnull as [Hv Hrest].
  unfold defined_params. cbn [List.filter snd]. rewrite Hv. cbn [negb].
  by apply IH.
Qed.

Lemma createQuerySerializer_all_nullish_witness :
  createQuerySerializer None (VObj [("a", VNull); ("b", VUndefined)]) = Ok "".
Proof.
  exact (createQuerySerializer_all_nullish None
           [("a", VNull); ("b", VUndefined)] eq_refl).
Defined.

(** A name that [Object.prototype] defines is not missing from an
    object that does not have it: the program finds the inherited member.
    A name the object has itself, or one that nothing defines, is read as
    [get_prop] reads it. *)
Example unmatched_not_inherited :
  unmatched [("id", VNum 1)] "{toString}" = false
  ∧ unmatched [("id", VNum 1)] "{;__proto__*}" = false
  ∧ unmatched [("toString", VNull)] "{toString}" = true
  ∧ unmatched [("id", VNum 1)] "{.post*}" = true
  ∧ unmatched [("id", VNum 1)] "{id}" = false.
Proof. repeat split; reflexivity. Qed.

Lemma defaultPathSerializer_loop_unmatched props matches nextURL :
  forallb (unmatched props) matches = true →
  defaultPathSerializer_loop (Some props) matches nextURL = Ok nextURL.
Proof.
  induction matches as [|m matches IH]; [done|].
  cbn [forallb]. intros [[_ Hm]%andb_prop Hrest]%andb_prop.
  cbn [defaultPathSerializer_loop]. unfold defaultPathSerializer_step.
  destruct (parse_placeholder m) as [[s e] paramName]. cbn [snd] in Hm.
  rewrite Hm. cbn [mbind result_bind]. by apply IH.
Qed.

(** X3. A placeholder whose parameter is missing, [null] or [undefined]
    stays in the URL as it is written: when this is so for every
    placeholder of a template, the path serializer returns the template
    unchanged.  Missing is meant of the whole lookup: the parameters do
    not have the name and [Object.prototype] does not define it either
    ([unmatched]); a placeholder named [toString] or [__proto__] finds
    the inherited member and is replaced. *)
Theorem defaultPathSerializer_unmatched (pathname : string)
    (props : list (string * value)) :
  has_placeholder pathname →
  forallb (unmatched props) (match_PATH_PARAM_RE None pathname) = true →
  defaultPathSerializer pathname (Some props) = Ok (VStr pathname).
Proof.
  intros Hhas Hunmatched. unfold defaultPathSerializer.
  destruct (match_PATH_PARAM_RE None pathname) as [|m matches] eqn:Hm.
  - by apply (match_PATH_PARAM_RE_complete pathname None) in Hhas.
  - by rewrite defaultPathSerializer_loop_unmatched.
Qed.

Lemma defaultPathSerializer_unmatched_witness :
  defaultPathSerializer "/users/{id}/posts/{.post*}" (Some [("user", VNum 1)])
  = Ok (VStr "/users/{id}/posts/{.post*}").
Proof.
  refine (defaultPathSerializer_unmatched "/users/{id}/posts/{.post*}"
            [("user", VNum 1)] _ eq_refl).
  by exists "/users/", "id", "/posts/{.post*}".
Defined.

(* ===================================================================== *)
(** ** Arrays that are not exploded, and the [simple] style *)
(* ===================================================================== *)

Lemma Array_join_flat_values sep reserved (elems : list value) :
  Array_join sep
    (if is_true reserved then elems
     else List.map (λ e, VStr (encodeURIComponent e)) elems)
  = String_join sep (List.map (flat_value reserved) elems).
Proof.
  unfold Array_join, flat_value. f_equal.
  destruct (is_true reserved); [done|].
  induction elems as [|e elems IH]; [done|].
  cbn [List.map]. by rewrite IH.
Qed.

(** X4. With [explode: false], [serializeArrayParam] never throws: it
    joins the elements, each percent-encoded unless [allowReserved] is
    [true], with [%20] for [spaceDelimited], a bar for [pipeDelimited] and
    a comma for any other style, and returns the result bare for
    [simple], after a dot for [label], after [;name=] for [matrix] and
    after [name=] for any other style. *)
Theorem serializeArrayParam_explode_false (name : string) (elems : list value)
    (options : SerializerOptions) :
  explode options = Some false →
  serializeArrayParam name (VArr elems) options
  = Ok (array_wrap (style options) name
          (String_join (array_joiner (style options))
             (List.map (flat_value (allowReserved options)) elems))).
Proof.
  intros Hexplode. unfold serializeArrayParam. rewrite Hexplode.
  change (is_false (Some false)) with true. cbn iota.
  rewrite Array_join_flat_values.
  unfold array_wrap, array_joiner. by destruct (style options) as [[]|].
Qed.

Lemma serializeArrayParam_explode_false_witness :
  serializeArrayParam "id" (VArr [VNum 3; VStr "a b"; VArr [VNum 1]])
    (opts (Some pipeDelimited) (Some false) None)
  = Ok "id=3|a%20b|1".
Proof.
  exact (serializeArrayParam_explode_false "id"
           [VNum 3; VStr "a b"; VArr [VNum 1]]
           (opts (Some pipeDelimited) (Some false) None) eq_refl).
Defined.

Lemma serializeArrayParam_simple_joined name elems exploded reserved :
  serializeArrayParam name (VArr elems) (opts (Some simple) exploded reserved)
  = Ok (String_join "," (List.map (flat_value reserved) elems)).
Proof.
  unfold serializeArrayParam. cbn [opts explode style allowReserved].
  destruct (is_false exploded).
  - by rewrite Array_join_flat_values.
  - change (style_is (opts (Some simple) exploded reserved) simple) with true.
    change (style_is (opts (Some simple) exploded reserved) label) with false.
    change (style_is (opts (Some simple) exploded reserved) matrix) with false.
    cbn [orb]. rewrite push_each_mapM.
    rewrite (mapM_Ok (λ e, if is_true reserved then e
                           else VStr (encodeURIComponent e))).
    cbn [mbind result_bind app]. f_equal.
    rewrite <- Array_join_flat_values. f_equal.
    destruct (is_true reserved); [|done]. apply List.map_id.
Qed.

(** X5. In the [simple] style [explode] makes no difference to an
    array: with or without it the elements are joined with commas, with
    no name. *)
Theorem serializeArrayParam_simple_ignores_explode (name : string) (v : value)
    (exploded exploded' reserved : option bool) :
  serializeArrayParam name v (opts (Some simple) exploded reserved)
  = serializeArrayParam name v (opts (Some simple) exploded' reserved).
Proof.
  destruct v; try reflexivity.
  by rewrite !serializeArrayParam_simple_joined.
Qed.

(* ===================================================================== *)
(** ** Values nested too deep *)
(* ===================================================================== *)

Lemma mapM_Throw_inv {A B} (f : A → result B) (l : list A) e :
  mapM f l = Throw e → ∃ x, In x l ∧ f x = Throw e.
Proof.
  induction l as [|x l IH]; [done|].
  rewrite mapM_cons. destruct (f x) as [y|e'] eqn:Hx.
  - cbn [mbind result_bind]. destruct (mapM f l) as [ys|e'] eqn:Hl; [done|].
    intros [= ->]. destruct (IH eq_refl) as (x' & Hin & Hx').
    exists x'. split; [by right|done].
  - intros [= ->]. exists x. split; [by left|done].
Qed.

Lemma mapM_Throw {A B} (f : A → result B) (l : list A) E :
  (∀ x e, In x l → f x = Throw e → e = E) →
  (∃ x, In x l ∧ f x = Throw E) →
  mapM f l = Throw E.
Proof.
  intros Honly (x & Hin & Hx).
  destruct (mapM f l) as [ys|e] eqn:Hl.
  - exfalso. revert ys Hl. induction l as [|x' l IH]; [done|].
    intros ys. rewrite mapM_cons.
    destruct (f x') as [y|e] eqn:Hx'; [|done].
    cbn [mbind result_bind]. destruct (mapM f l) as [ys'|e] eqn:Hl; [|done].
    intros _. destruct Hin as [->|Hin]; [congruence|].
    eapply IH; eauto. intros x0 e0 Hin0. apply Honly. by right.
  - apply mapM_Throw_inv in Hl as (x' & Hin' & Hx').
    f_equal. by apply (Honly x').
Qed.

Lemma mapM_all_Ok {A B} (f : A → result B) (l : list A) :
  (∀ x, In x l → ∃ y, f x = Ok y) → ∃ ys, mapM f l = Ok ys.
Proof.
  induction l as [|x l IH]; intros Hall; [by exists []|].
  destruct (Hall x) as [y Hy]; [by left|].
  destruct IH as [ys Hys]; [intros x' Hin; apply Hall; by right|].
  exists (y :: ys). by rewrite mapM_cons, Hy, Hys.
Qed.

Lemma serializePrimitiveParam_nested name v reserved :
  nested v = true →
  serializePrimitiveParam name v reserved = Throw NestedValueError.
Proof. by destruct v. Qed.

Lemma serializePrimitiveParam_flat name v reserved :
  nested v = false → ∃ s, serializePrimitiveParam name v reserved = Ok s.
Proof. destruct v; try done; eexists; reflexivity. Qed.

Lemma serializePrimitiveParam_Throw name v reserved e :
  serializePrimitiveParam name v reserved = Throw e → e = NestedValueError.
Proof. destruct v; cbn; congruence. Qed.

Lemma existsb_false_In {A} (p : A → bool) (l : list A) x :
  existsb p l = false → In x l → p x = false.
Proof.
  intros Hnone Hin. destruct (p x) eqn:Hx; [|done].
  rewrite <- Hnone. symmetry. apply existsb_exists. eauto.
Qed.

Lemma serializeArrayParam_flat name elems options :
  existsb nested elems = false →
  ∃ s, serializeArrayParam name (VArr elems) options = Ok s.
Proof.
  intros Hflat. unfold serializeArrayParam.
  destruct (is_false (explode options)); [by eexists|].
  rewrite push_each_mapM.
  destruct (mapM_all_Ok (λ e,
      if style_is options simple || style_is options label
      then Ok (if is_true (allowReserved options) then e
               else VStr (encodeURIComponent e))
      else VStr <$> serializePrimitiveParam name e (allowReserved options))
    elems) as [ys ->]; [|by eexists].
  intros e Hin. destruct (style_is options simple || style_is options label);
    [by eexists|].
  destruct (serializePrimitiveParam_flat name e (allowReserved options))
    as [s ->]; [by eapply existsb_false_In|by eexists].
Qed.

Lemma serializeObjectParam_flat name props options :
  existsb (λ kv, nested kv.2) props = false →
  ∃ s, serializeObjectParam name (VObj props) options = Ok s.
Proof.
  intros Hflat. unfold serializeObjectParam.
  cbn [ToBoolean typeof_object negb orb for_in].
  destruct (negb (style_is options deepObject) && is_false (explode options));
    [by eexists|].
  rewrite push_each_mapM.
  destruct (mapM_all_Ok (λ kv : string * value,
      VStr <$> serializePrimitiveParam
        (if style_is options deepObject
         then name +:+ "[" +:+ kv.1 +:+ "]" else kv.1) kv.2
        (allowReserved options)) props) as [ys ->]; [|by eexists].
  intros kv Hin.
  destruct (serializePrimitiveParam_flat
              (if style_is options deepObject
               then name +:+ "[" +:+ kv.1 +:+ "]" else kv.1) kv.2
              (allowReserved options)) as [s ->]; [|by eexists].
  by apply (existsb_false_In (λ kv, nested kv.2) props kv).
Qed.

Lemma query_fragment_flat options kv :
  deeply_nested kv.2 = false → ∃ s, query_fragment options kv = Ok s.
Proof.
  destruct kv as [name v]. cbn [snd]. intros Hflat. unfold query_fragment.
  cbn [fst snd]. destruct v; cbn [isArray typeof_object];
    try (by eexists).
  - by apply serializeArrayParam_flat.
  - by apply serializeObjectParam_flat.
Qed.

Lemma query_fragment_Throw options kv e :
  query_fragment options kv = Throw e → e = NestedValueError.
Proof.
  destruct kv as [name v]. unfold query_fragment. cbn [fst snd].
  destruct v; cbn [isArray typeof_object]; try (cbn; congruence).
  - unfold serializeArrayParam.
    destruct (is_false _); [done|]. rewrite push_each_mapM.
    destruct (mapM _ elems) as [ys|e'] eqn:Hm; [done|].
    intros [= ->]. apply mapM_Throw_inv in Hm as (x & _ & Hx).
    destruct (style_is _ simple || style_is _ label); [done|].
    destruct (serializePrimitiveParam name x _) as [s|e'] eqn:Hs; [done|].
    injection Hx as ->. by eapply serializePrimitiveParam_Throw.
  - unfold serializeObjectParam.
    cbn [ToBoolean typeof_object negb orb for_in].
    destruct (negb _ && is_false _); [done|]. rewrite push_each_mapM.
    destruct (mapM _ props) as [ys|e'] eqn:Hm; [done|].
    intros [= ->]. apply mapM_Throw_inv in Hm as (x & _ & Hx).
    destruct (serializePrimitiveParam _ x.2 _) as [s|e'] eqn:Hs; [done|].
    injection Hx as ->. by eapply serializePrimitiveParam_Throw.
Qed.

Lemma query_fragment_deeply_nested kv :
  deeply_nested kv.2 = true → query_fragment None kv = Throw NestedValueError.
Proof.
  destruct kv as [name v]. cbn [snd]. intros Hdeep. unfold query_fragment.
  cbn [fst snd]. destruct v; try done; cbn [isArray typeof_object deeply_nested] in *.
  - rewrite serializeArrayParam_exploded by done.
    apply existsb_exists in Hdeep as (e & Hin & He).
    rewrite (mapM_Throw _ elems NestedValueError); [done| |].
    + intros x e' _. apply serializePrimitiveParam_Throw.
    + exists e. split; [done|]. by apply serializePrimitiveParam_nested.
  - rewrite serializeObjectParam_exploded by done.
    apply existsb_exists in Hdeep as (kv & Hin & Hkv).
    rewrite (mapM_Throw _ props NestedValueError); [done| |].
    + intros x e' _. apply serializePrimitiveParam_Throw.
    + exists kv. split; [done|]. by apply serializePrimitiveParam_nested.
Qed.

Lemma In_defined_params kv entries :
  In kv entries → is_nullish kv.2 = false → In kv (defined_params entries).
Proof.
  intros Hin Hv. apply filter_In. split; [done|]. by rewrite Hv.
Qed.

(** X6. Whatever its options, the query serializer does not throw on a
    mapping in which no value is an array or an object that itself holds
    an array or an object. *)
Theorem createQuerySerializer_total_on_flat
    (options : option QuerySerializerOptions) (entries : list (string * value)) :
  existsb (λ kv, deeply_nested kv.2) entries = false →
  ∃ q, createQuerySerializer options (VObj entries) = Ok q.
Proof.
  intros Hflat. unfold createQuerySerializer.
  cbn [ToBoolean typeof_object andb for_in].
  rewrite querySerializer_loop_mapM.
  destruct (mapM_all_Ok (query_fragment options) (defined_params entries))
    as [fragments ->]; [|by eexists].
  intros kv [Hin _]%filter_In. apply query_fragment_flat.
  by apply (existsb_false_In (λ kv, deeply_nested kv.2) entries kv).
Qed.

Lemma createQuerySerializer_total_on_flat_witness :
  ∃ q, createQuerySerializer
         (Some {| qs_array := Some (opts (Some pipeDelimited) (Some false) None);
                  qs_object := None; qs_allowReserved := Some true |})
         (VObj [("a", VArr [VNum 1; VNull]); ("o", VObj [("k", VStr "v")]);
                ("s", VStr "x")])
       = Ok q.
Proof.
  exact (createQuerySerializer_total_on_flat
           (Some {| qs_array := Some (opts (Some pipeDelimited) (Some false) None);
                    qs_object := None; qs_allowReserved := Some true |})
           [("a", VArr [VNum 1; VNull]); ("o", VObj [("k", VStr "v")]);
            ("s", VStr "x")] eq_refl).
Defined.

(** X7. The default query serializer throws on every mapping in which
    some value is an array or an object that itself holds an array or an
    object, wherever that value stands and whatever the others are. *)
Theorem createQuerySerializer_throws_on_deep (entries : list (string * value)) :
  existsb (λ kv, deeply_nested kv.2) entries = true →
  createQuerySerializer None (VObj entries) = Throw NestedValueError.
Proof.
  intros Hdeep. unfold createQuerySerializer.
  cbn [ToBoolean typeof_object andb for_in].
  rewrite querySerializer_loop_mapM.
  apply existsb_exists in Hdeep as (kv & Hin & Hkv).
  rewrite (mapM_Throw _ (defined_params entries) NestedValueError); [done| |].
  - intros x e _. apply query_fragment_Throw.
  - exists kv. split.
    + apply In_defined_params; [done|]. by destruct kv as [k []].
    + by apply query_fragment_deeply_nested.
Qed.

Lemma createQuerySerializer_throws_on_deep_witness :
  createQuerySerializer None
    (VObj [("a", VNum 1); ("o", VObj [("k", VArr [VNum 2])]); ("b", VNum 3)])
  = Throw NestedValueError.
Proof.
  exact (createQuerySerializer_throws_on_deep
           [("a", VNum 1); ("o", VObj [("k", VArr [VNum 2])]); ("b", VNum 3)]
           eq_refl).
Defined.

(* ===================================================================== *)
(** ** Merged headers: names and composition *)
(* ===================================================================== *)

Lemma lower_ascii_idemp c : lower_ascii (lower_ascii c) = lower_ascii c.
Proof. by destruct c as [[] [] [] [] [] [] [] []]. Qed.

Lemma lower_idemp s : lower (lower s) = lower s.
Proof.
  induction s as [|c s IH]; [done|].
  cbn [lower]. by rewrite lower_ascii_idemp, IH.
Qed.

Lemma mergeHeaders_entry_lower (headers : Headers) kv :
  (∀ k, is_Some (headers !! k) → lower k = k) →
  ∀ k, is_Some (mergeHeaders_entry headers kv !! k) → lower k = k.
Proof.
  intros Hinv k. unfold mergeHeaders_entry, Headers_set, Headers_delete.
  destruct kv as [k' v]. cbn [fst snd].
  destruct v; try apply Hinv;
    try (destruct (decide (lower k' = k)) as [<-|Hne];
         [intros _; apply lower_idemp
         |rewrite lookup_insert_ne by done; apply Hinv]).
  destruct (decide (lower k' = k)) as [<-|Hne].
  - rewrite lookup_delete_eq. by intros [? [=]].
  - rewrite lookup_delete_ne by done. apply Hinv.
Qed.

(** X8. Every name in the collection that [mergeHeaders] returns is in
    lower case, however the sources spell it. *)
Theorem mergeHeaders_names_lower (allHeaders : list HeadersInit) (k : string) :
  is_Some (mergeHeaders allHeaders !! k) → lower k = k.
Proof.
  unfold mergeHeaders. rewrite mergeHeaders_fold. revert k.
  induction (merged_entries allHeaders) as [|kv entries IH] using rev_ind.
  - intros k. cbn. rewrite lookup_empty. by intros [? [=]].
  - rewrite fold_left_app. cbn [fold_left].
    by apply mergeHeaders_entry_lower.
Qed.

Lemma mergeHeaders_names_lower_witness :
  lower "x-trace" = "x-trace".
Proof.
  apply (mergeHeaders_names_lower
           [HValue (VObj [("X-Trace", VStr "1")])] "x-trace").
  by eexists.
Defined.

Lemma merged_entries_app l1 l2 :
  merged_entries (l1 ++ l2) = merged_entries l1 ++ merged_entries l2.
Proof. unfold merged_entries. apply flat_map_app. Qed.

Lemma mergeHeaders_app_get (l1 l2 : list HeadersInit) (k : string) :
  Headers_get (mergeHeaders (l1 ++ l2)) k
  = match last_writer k (merged_entries l2) with
    | Some v => written (Some v)
    | None => Headers_get (mergeHeaders l1) k
    end.
Proof.
  unfold mergeHeaders. rewrite !mergeHeaders_fold, merged_entries_app.
  rewrite fold_left_app. apply fold_mergeHeaders_entry_get.
Qed.

(** X9. Later sources override earlier ones name by name, not
    wholesale: after merging [l1] and then [l2], a name holds what [l2]
    last wrote under it, and what the merge of [l1] alone holds when [l2]
    does not write it; a name that [l2] last wrote with [null] is gone. *)
Theorem mergeHeaders_app (l1 l2 : list HeadersInit) (k : string) :
  Headers_get (mergeHeaders (l1 ++ l2)) k
  = match last_writer k (merged_entries l2) with
    | Some VNull => None
    | Some v => Some (normalize_header_value (ToString v))
    | None => Headers_get (mergeHeaders l1) k
    end.
Proof.
  rewrite mergeHeaders_app_get.
  by destruct (last_writer k (merged_entries l2)) as [[]|].
Qed.

(* ===================================================================== *)
(** ** The request and the reading of an [ok] response *)
(* ===================================================================== *)

Lemma classify_reads_clones parseAs response :
  Forall (λ ev, event_target ev = FreshClone) (classify parseAs response).1
  ∧ (length (classify parseAs response).1 ≤ 2)%nat
  ∧ ∀ r, (classify parseAs response).2 = Ok r → result_response r = response.
Proof.
  unfold classify.
  destruct (_ || _).
  { cbn. repeat split; [constructor|lia|]. intros r [= <-]. by destruct (ok _). }
  destruct (ok response).
  - destruct (String.eqb parseAs "stream").
    { cbn. repeat split; [by repeat constructor|lia|]. by intros r [= <-]. }
    destruct (Response_method response parseAs) as [[d|e]|]; cbn;
      (repeat split; [by repeat constructor|lia|]); by intros r [= <-].
  - destruct (json response) as [d|e]; cbn;
      (repeat split; [by repeat constructor|lia|]); by intros r [= <-].
Qed.

Lemma classify_ok parseAs response :
  ¬ empty_content response → ok response = true →
  classify parseAs response
  = if String.eqb parseAs "stream"
    then ([Read FreshClone "body"], Ok (DataResult (body response) response))
    else match Response_method response parseAs with
         | Some outcome =>
             ([Read FreshClone parseAs],
              (λ data, DataResult data response) <$> outcome)
         | None =>
             ([Read FreshClone "text"],
              Ok (DataResult (VStr (text response)) response))
         end.
Proof.
  intros Hcontent Hok. unfold classify.
  assert ((status response =? 204)
          || bool_decide (Headers_get (headers response) "Content-Length"
                          = Some "0") = false) as ->.
  { apply orb_false_iff. split.
    - apply Z.eqb_neq. intros H. apply Hcontent. by left.
    - apply bool_decide_eq_false_2. intros H. apply Hcontent. by right. }
  rewrite Hok. destruct (String.eqb parseAs "stream"); [done|].
  by destruct (Response_method response parseAs) as [[d|e]|].
Qed.

Section RequestProperties.
Variable globalThis_fetch : Transport.
Variable JSON_stringify : Body → result Body.

(** X11. When building the URL throws, for instance on a query value
    nested too deep, [coreFetch] throws the same error, reads nothing,
    and its outcome is the same for every transport: none is called. *)
Theorem coreFetch_fails_before_fetch (clientOptions : option ClientOptions)
    (baseUrl url : string) (fetchOptions : option FetchOptions) (e : exn) :
  coreFetch_finalURL clientOptions baseUrl url fetchOptions = Throw e →
  coreFetch globalThis_fetch JSON_stringify clientOptions baseUrl url fetchOptions
  = ([], Throw e).
Proof.
  intros Hurl. unfold coreFetch, coreFetch_send. by rewrite Hurl.
Qed.

(** X12. Whatever the response, [coreFetch] reads it through clones
    only, at most twice, never the response itself; and the response it
    returns beside [data] or [error] is the one the transport gave. *)
Theorem coreFetch_reads_clones_only (clientOptions : option ClientOptions)
    (baseUrl url : string) (fetchOptions : option FetchOptions) :
  Forall (λ ev, event_target ev = FreshClone)
    (coreFetch globalThis_fetch JSON_stringify clientOptions baseUrl url
       fetchOptions).1
  ∧ (length (coreFetch globalThis_fetch JSON_stringify clientOptions baseUrl
               url fetchOptions).1 ≤ 2)%nat
  ∧ ∀ response r,
      coreFetch_send globalThis_fetch JSON_stringify clientOptions baseUrl url
        fetchOptions = Ok response →
      (coreFetch globalThis_fetch JSON_stringify clientOptions baseUrl url
         fetchOptions).2 = Ok r →
      result_response r = response.
Proof.
  destruct (coreFetch_send globalThis_fetch JSON_stringify clientOptions
              baseUrl url fetchOptions) as [response|e] eqn:Hsent.
  - rewrite (coreFetch_sent _ _ _ _ _ _ _ Hsent).
    destruct (classify_reads_clones
                (default "json"
                   (fo_parseAs (default empty_FetchOptions fetchOptions)))
                response) as (Hclones & Hlen & Hresp).
    repeat split; [done|done|]. intros response' r [= <-]. apply Hresp.
  - unfold coreFetch. rewrite Hsent. cbn.
    repeat split; [constructor|lia|done].
Qed.

(** X13. When the transport answers with a response that is [ok] and
    has content, [coreFetch] reads one clone: its [body] when [parseAs] is
    [stream]; else the method named by [parseAs], throwing what that
    method throws (an [ok] body that is not JSON makes the default
    [parseAs] throw); else, when the response has no such method, its
    text. *)
Theorem coreFetch_ok_body (clientOptions : option ClientOptions)
    (baseUrl url : string) (fetchOptions : option FetchOptions)
    (response : Response) :
  coreFetch_send globalThis_fetch JSON_stringify clientOptions baseUrl url
    fetchOptions = Ok response →
  ¬ empty_content response → ok response = true →
  coreFetch globalThis_fetch JSON_stringify clientOptions baseUrl url fetchOptions
  = let parseAs :=
      default "json" (fo_parseAs (default empty_FetchOptions fetchOptions)) in
    if String.eqb parseAs "stream"
    then ([Read FreshClone "body"], Ok (DataResult (body response) response))
    else match Response_method response parseAs with
         | Some outcome =>
             ([Read FreshClone parseAs],
              (λ data, DataResult data response) <$> outcome)
         | None =>
             ([Read FreshClone "text"],
              Ok (DataResult (VStr (text response)) response))
         end.
Proof.
  intros Hsent Hcontent Hok.
  rewrite (coreFetch_sent _ _ _ _ _ _ _ Hsent).
  by apply classify_ok.
Qed.

(** X14. A body of the request that is falsy ([undefined], [null],
    [false], [0] or the empty string) is neither serialized nor sent: the
    body serializer is not called, and the transport gets the URL, the
    method and the merged headers, with the [body] of the client options
    in its place, as it is, and without [Content-Type] when that body is
    form data.  When the client options have no [body] either, the
    request goes out with no body and the merged headers. *)
Theorem coreFetch_send_falsy_body (clientOptions : option ClientOptions)
    (baseUrl url : string) (fo : FetchOptions) (finalURL : value) :
  coreFetch_finalURL clientOptions baseUrl url (Some fo) = Ok finalURL →
  Body_truthy (fo_body fo) = false →
  coreFetch_send globalThis_fetch JSON_stringify clientOptions baseUrl url
    (Some fo)
  = resolved_fetch globalThis_fetch clientOptions fo
      {| req_url := finalURL; req_method := fo_method fo;
         req_headers :=
           if is_FormData (clientOptions ≫= co_body)
           then Headers_delete "Content-Type"
                  (mergeHeaders (header_sources clientOptions fo))
           else mergeHeaders (header_sources clientOptions fo);
         req_body := clientOptions ≫= co_body |}
  ∧ (clientOptions ≫= co_body = None →
     coreFetch_send globalThis_fetch JSON_stringify clientOptions baseUrl url
       (Some fo)
     = resolved_fetch globalThis_fetch clientOptions fo
         {| req_url := finalURL; req_method := fo_method fo;
            req_headers := mergeHeaders (header_sources clientOptions fo);
            req_body := None |}).
Proof.
  intros Hurl Hbody.
  assert (coreFetch_send globalThis_fetch JSON_stringify clientOptions baseUrl
            url (Some fo)
          = resolved_fetch globalThis_fetch clientOptions fo
              {| req_url := finalURL; req_method := fo_method fo;
                 req_headers :=
                   if is_FormData (clientOptions ≫= co_body)
                   then Headers_delete "Content-Type"
                          (mergeHeaders (header_sources clientOptions fo))
                   else mergeHeaders (header_sources clientOptions fo);
                 req_body := clientOptions ≫= co_body |}) as Hsend.
  { unfold coreFetch_send. rewrite Hurl.
    change (default empty_FetchOptions (Some fo)) with fo.
    cbn [mbind result_bind]. by rewrite Hbody. }
  split; [exact Hsend|].
  intros Hnone. rewrite Hsend. by rewrite Hnone.
Qed.

(** X10. A request that [coreFetch] sends with a body that is not form
    data carries [Content-Type: application/json] whenever neither the
    client's headers, nor the request's, nor [params.header] write that
    name: the transport is called with a request whose body is the one
    that was prepared (the serialized body of the request, or else the
    client's) and whose [Content-Type] is the default. *)
Theorem default_Content_Type (clientOptions : option ClientOptions)
    (baseUrl url : string) (fo : FetchOptions) (finalURL : value)
    (requestInit_body : option Body) :
  coreFetch_finalURL clientOptions baseUrl url (Some fo) = Ok finalURL →
  (if Body_truthy (fo_body fo)
   then Some <$> resolved_bodySerializer JSON_stringify clientOptions fo
                   (fo_body fo)
   else Ok (clientOptions ≫= co_body)) = Ok requestInit_body →
  is_FormData requestInit_body = false →
  last_writer "Content-Type"
    (merged_entries
       [from_option co_headers (HValue VUndefined) clientOptions;
        fo_headers fo; header (default no_params (fo_params fo))]) = None →
  ∃ request,
    coreFetch_send globalThis_fetch JSON_stringify clientOptions baseUrl url
      (Some fo)
    = resolved_fetch globalThis_fetch clientOptions fo request
    ∧ req_url request = finalURL
    ∧ req_method request = fo_method fo
    ∧ req_body request = requestInit_body
    ∧ Headers_get (req_headers request) "Content-Type"
      = Some "application/json".
Proof.
  intros Hurl Hprepared Hform Hnone.
  exists {| req_url := finalURL; req_method := fo_method fo;
            req_headers := mergeHeaders (header_sources clientOptions fo);
            req_body := requestInit_body |}.
  split.
  - unfold coreFetch_send. rewrite Hurl.
    change (default empty_FetchOptions (Some fo)) with fo.
    cbn [mbind result_bind].
    unfold resolved_bodySerializer in Hprepared. rewrite Hprepared.
    cbn [mbind result_bind]. by rewrite Hform.
  - cbn [req_url req_method req_body req_headers].
    repeat split.
    change (header_sources clientOptions fo)
      with ([HValue DEFAULT_HEADERS]
            ++ [from_option co_headers (HValue VUndefined) clientOptions;
                fo_headers fo; header (default no_params (fo_params fo))]).
    by rewrite mergeHeaders_app_get, Hnone.
Qed.

(** X15. When the serialized body is form data, the request goes out
    without a [Content-Type] header, also when a header source set one;
    the other headers are those merged. *)
Theorem coreFetch_send_FormData (clientOptions : option ClientOptions)
    (baseUrl url : string) (fo : FetchOptions) (finalURL : value)
    (fields : list (string * value)) :
  coreFetch_finalURL clientOptions baseUrl url (Some fo) = Ok finalURL →
  Body_truthy (fo_body fo) = true →
  resolved_bodySerializer JSON_stringify clientOptions fo (fo_body fo)
  = Ok (BodyFormData fields) →
  ∃ request,
    coreFetch_send globalThis_fetch JSON_stringify clientOptions baseUrl url
      (Some fo)
    = resolved_fetch globalThis_fetch clientOptions fo request
    ∧ req_url request = finalURL
    ∧ req_method request = fo_method fo
    ∧ req_body request = Some (BodyFormData fields)
    ∧ (∀ k, lower k = "content-type" →
         Headers_get (req_headers request) k = None)
    ∧ (∀ k, lower k ≠ "content-type" →
         Headers_get (req_headers request) k
         = Headers_get (mergeHeaders (header_sources clientOptions fo)) k).
Proof.
  intros Hurl Hbody Hform.
  exists {| req_url := finalURL; req_method := fo_method fo;
            req_headers :=
              Headers_delete "Content-Type"
                (mergeHeaders (header_sources clientOptions fo));
            req_body := Some (BodyFormData fields) |}.
  split.
  - unfold coreFetch_send. rewrite Hurl.
    change (default empty_FetchOptions (Some fo)) with fo.
    cbn [mbind result_bind]. rewrite Hbody.
    unfold resolved_bodySerializer in Hform. by rewrite Hform.
  - cbn [req_url req_method req_body req_headers].
    repeat split; unfold Headers_get, Headers_delete.
    + intros k ->. apply lookup_delete_eq.
    + intros k Hk. by apply lookup_delete_ne.
Qed.

End RequestProperties.

Lemma coreFetch_fails_before_fetch_witness :
  coreFetch (answering (text_response true 200 ∅ "{}")) stringify_stub None
    "https://x" "/search"
    (Some (request_options (VObj [("f", VObj [("tags", VArr [VStr "a"])])])
             (BodyValue VUndefined) None (HValue VUndefined)))
  = ([], Throw NestedValueError).
Proof.
  exact (coreFetch_fails_before_fetch
           (answering (text_response true 200 ∅ "{}")) stringify_stub None
           "https://x" "/search"
           (Some (request_options
                    (VObj [("f", VObj [("tags", VArr [VStr "a"])])])
                    (BodyValue VUndefined) None (HValue VUndefined)))
           NestedValueError eq_refl).
Defined.

Lemma coreFetch_ok_body_witness :
  coreFetch (answering (text_response true 200 ∅ "<html>")) stringify_stub None
    "https://x" "/page" None
  = ([Read FreshClone "json"], Throw SyntaxError).
Proof.
  apply (coreFetch_ok_body
           (answering (text_response true 200 ∅ "<html>")) stringify_stub None
           "https://x" "/page" None (text_response true 200 ∅ "<html>")).
  - reflexivity.
  - intros [H|H]; discriminate H.
  - reflexivity.
Defined.

Lemma coreFetch_send_falsy_body_witness :
  coreFetch_send reject_with_body stringify_stub
    (Some (with_body empty_ClientOptions (BodyValue (VStr "client"))))
    "https://x" "/count"
    (Some (request_options VUndefined (BodyValue (VNum 0))
             (Some (λ _, Throw TypeError)) (HValue VUndefined)))
  = Throw (Rejected "client")
  ∧ coreFetch_send reject_with_body stringify_stub
      (Some (with_body empty_ClientOptions (BodyFormData [("f", VStr "x")])))
      "https://x" "/count"
      (Some (request_options VUndefined (BodyValue (VNum 0))
               (Some (λ _, Throw TypeError)) (HValue VUndefined)))
    = Throw (Rejected "form data, no Content-Type")
  ∧ coreFetch_send reject_with_body stringify_stub None
      "https://x" "/count"
      (Some (request_options VUndefined (BodyValue (VNum 0))
               (Some (λ _, Throw TypeError)) (HValue VUndefined)))
    = Throw (Rejected "no body").
Proof.
  split; [|split].
  - exact (proj1 (coreFetch_send_falsy_body
             reject_with_body stringify_stub
             (Some (with_body empty_ClientOptions (BodyValue (VStr "client"))))
             "https://x" "/count"
             (request_options VUndefined (BodyValue (VNum 0))
                (Some (λ _, Throw TypeError)) (HValue VUndefined))
             (VStr "https://x/count") eq_refl eq_refl)).
  - exact (proj1 (coreFetch_send_falsy_body
             reject_with_body stringify_stub
             (Some (with_body empty_ClientOptions
                      (BodyFormData [("f", VStr "x")])))
             "https://x" "/count"
             (request_options VUndefined (BodyValue (VNum 0))
                (Some (λ _, Throw TypeError)) (HValue VUndefined))
             (VStr "https://x/count") eq_refl eq_refl)).
  - exact (proj2 (coreFetch_send_falsy_body
             reject_with_body stringify_stub None
             "https://x" "/count"
             (request_options VUndefined (BodyValue (VNum 0))
                (Some (λ _, Throw TypeError)) (HValue VUndefined))
             (VStr "https://x/count") eq_refl eq_refl) eq_refl).
Defined.

Lemma default_Content_Type_witness :
  ∃ request,
    coreFetch_send (answering (text_response true 200 ∅ "{}")) stringify_stub
      None "https://x" "/items"
      (Some (request_options VUndefined (BodyValue (VObj [("a", VNum 1)]))
               None (HValue (VObj [("Accept", VStr "text/plain")]))))
    = Ok (text_response true 200 ∅ "{}")
    ∧ req_body request = Some (BodyValue (VStr "{}"))
    ∧ Headers_get (req_headers request) "Content-Type"
      = Some "application/json".
Proof.
  destruct (default_Content_Type
              (answering (text_response true 200 ∅ "{}")) stringify_stub
              None "https://x" "/items"
              (request_options VUndefined (BodyValue (VObj [("a", VNum 1)]))
                 None (HValue (VObj [("Accept", VStr "text/plain")])))
              (VStr "https://x/items") (Some (BodyValue (VStr "{}")))
              eq_refl eq_refl eq_refl eq_refl)
    as (request & Hsend & _ & _ & Hbody & Htype).
  exists request. split; [exact Hsend|]. split; [exact Hbody|exact Htype].
Defined.

Lemma coreFetch_send_FormData_witness :
  ∃ request,
    coreFetch_send (answering (text_response true 200 ∅ "{}")) stringify_stub
      None "https://x" "/upload"
      (Some (request_options VUndefined (BodyFormData [("file", VStr "f")])
               (Some Ok)
               (HValue (VObj [("Content-Type", VStr "multipart/form-data")]))))
    = Ok (text_response true 200 ∅ "{}")
    ∧ req_body request = Some (BodyFormData [("file", VStr "f")])
    ∧ Headers_get (req_headers request) "Content-Type" = None.
Proof.
  destruct (coreFetch_send_FormData
              (answering (text_response true 200 ∅ "{}")) stringify_stub
              None "https://x" "/upload"
              (request_options VUndefined (BodyFormData [("file", VStr "f")])
                 (Some Ok)
                 (HValue (VObj [("Content-Type", VStr "multipart/form-data")])))
              (VStr "https://x/upload") [("file", VStr "f")]
              eq_refl eq_refl eq_refl)
    as (request & Hsend & _ & _ & Hbody & Htype & _).
  exists request. split; [exact Hsend|]. split; [exact Hbody|].
  apply Htype. reflexivity.
Defined.

(* ===================================================================== *)
(** ** Which query serializer a request uses *)
(* ===================================================================== *)




(* ===================================================================== *)
(** ** Placeholders *)
(* ===================================================================== *)

Lemma rev_app_acc (s acc : string) :
  String.rev_app s acc = String.rev_app s "" +:+ acc.
Proof.
  revert acc. induction s as [|c s IH]; intros acc; [done|].
  cbn [String.rev_app]. rewrite (IH (String c acc)), (IH (String c "")).
  by rewrite String_append_assoc.
Qed.

Lemma prefix_empty (s : string) : String.prefix "" s = true.
Proof. by destruct s. Qed.

Lemma endsWith_star_cons c (s : string) :
  s ≠ "" → endsWith (String c s) "*" = endsWith s "*".
Proof.
  intros Hs. unfold endsWith, String.rev. cbn [String.rev_app].
  rewrite (rev_app_acc s (String c "")).
  destruct s as [|d s]; [done|]. cbn [String.rev_app].
  rewrite (rev_app_acc s (String d "")).
  destruct (String.rev_app s "") as [|x r];
    rewrite ?String_append_nil_l, ?String_append_cons;
    cbn [String.prefix]; destruct (ascii_dec _ _);
    by rewrite ?prefix_empty.
Qed.

Lemma endsWith_star_snoc (s : string) : endsWith (s +:+ "*") "*" = true.
Proof.
  unfold endsWith, String.rev. rewrite rev_app_append.
  cbn. by destruct (String.rev_app s "").
Qed.

Lemma slice_star (s : string) :
  substring (s +:+ "*") 0 (String.length (s +:+ "*") - 1) = s.
Proof.
  unfold substring. rewrite String_length_append. cbn [String.length].
  replace (String.length s + 1 - 1 - 0)%nat with (String.length s) by lia.
  apply substring_prefix.
Qed.

Lemma substring_all (s : string) : String.substring 0 (String.length s) s = s.
Proof.
  rewrite <- (String_append_nil_r s) at 2. apply substring_prefix.
Qed.

Lemma placeholder_inner (body : string) :
  substring ("{" +:+ body +:+ "}") 1 (String.length ("{" +:+ body +:+ "}") - 1)
  = body.
Proof.
  unfold substring.
  change ("{" +:+ body +:+ "}") with (String "{" (body +:+ "}")).
  cbn [String.length]. rewrite String_length_append. cbn [String.length].
  replace (S (String.length body + 1) - 1 - 1)%nat with (String.length body)
    by lia.
  destruct (String.length body) eqn:Hlen.
  - by destruct body.
  - cbn [String.substring]. rewrite <- Hlen. apply substring_prefix.
Qed.

Lemma parse_placeholder_body (body : string) :
  parse_placeholder ("{" +:+ body +:+ "}")
  = let '(explode, paramName) :=
      if endsWith body "*"
      then (true, substring body 0 (String.length body - 1))
      else (false, body) in
    if startsWith paramName "."
    then (label, explode, substring paramName 1 (String.length paramName))
    else if startsWith paramName ";"
    then (matrix, explode, substring paramName 1 (String.length paramName))
    else (simple, explode, paramName).
Proof. unfold parse_placeholder. by rewrite placeholder_inner. Qed.

Lemma drop_first c (s : string) :
  substring (String c s) 1 (String.length (String c s)) = s.
Proof.
  unfold substring. cbn [String.length].
  replace (S (String.length s) - 1)%nat with (String.length s) by lia.
  destruct (String.length s) eqn:Hlen.
  - by destruct s.
  - cbn [String.substring]. rewrite <- Hlen. apply substring_all.
Qed.

Lemma startsWith_head c (s : string) : startsWith (String c s) (String c "") = true.
Proof.
  unfold startsWith. cbn [String.prefix].
  destruct (ascii_dec c c); [apply prefix_empty|done].
Qed.

(** X17. The syntax of a placeholder: for a name that starts with
    neither a dot nor a semicolon and does not end with a star, [{name}]
    is the [simple] style, [{.name}] the [label] style and [{;name}] the
    [matrix] style, each without [explode], and each with [explode] when a
    star follows the name. *)
Theorem parse_placeholder_syntax (name : string) :
  startsWith name "." = false → startsWith name ";" = false →
  endsWith name "*" = false →
  parse_placeholder ("{" +:+ name +:+ "}") = (simple, false, name)
  ∧ parse_placeholder ("{" +:+ (name +:+ "*") +:+ "}") = (simple, true, name)
  ∧ parse_placeholder ("{" +:+ ("." +:+ name) +:+ "}") = (label, false, name)
  ∧ parse_placeholder ("{" +:+ ("." +:+ name +:+ "*") +:+ "}")
    = (label, true, name)
  ∧ parse_placeholder ("{" +:+ (";" +:+ name) +:+ "}") = (matrix, false, name)
  ∧ parse_placeholder ("{" +:+ (";" +:+ name +:+ "*") +:+ "}")
    = (matrix, true, name).
Proof.
  intros Hdot Hsemi Hstar.
  assert (∀ c : ascii, endsWith (String c name) "*" = false ∨ name = "")
    as Hcons.
  { intros c. destruct name as [|d name]; [by right|left].
    by rewrite endsWith_star_cons. }
  assert (startsWith (String ";" name) "." = false) as Hsemi_dot.
  { unfold startsWith. cbn [String.prefix]. by destruct (ascii_dec _ _). }
  rewrite !parse_placeholder_body.
  repeat split.
  - by rewrite Hstar, Hdot, Hsemi.
  - by rewrite endsWith_star_snoc, slice_star, Hdot, Hsemi.
  - change ("." +:+ name) with (String "."%char name).
    destruct (Hcons "."%char) as [->| ->]; [|done].
    by rewrite drop_first, startsWith_head.
  - change ("." +:+ name +:+ "*") with (String "."%char name +:+ "*").
    rewrite endsWith_star_snoc, slice_star.
    by rewrite drop_first, startsWith_head.
  - change (";" +:+ name) with (String ";"%char name).
    destruct (Hcons ";"%char) as [->| ->]; [|done].
    by rewrite drop_first, Hsemi_dot, startsWith_head.
  - change (";" +:+ name +:+ "*") with (String ";"%char name +:+ "*").
    rewrite endsWith_star_snoc, slice_star.
    by rewrite drop_first, Hsemi_dot, startsWith_head.
Qed.

Lemma parse_placeholder_syntax_witness :
  parse_placeholder "{.team*}" = (label, true, "team")
  ∧ parse_placeholder "{;id}" = (matrix, false, "id").
Proof.
  pose proof (parse_placeholder_syntax "team" eq_refl eq_refl eq_refl)
    as (_ & _ & _ & Hteam & _).
  pose proof (parse_placeholder_syntax "id" eq_refl eq_refl eq_refl)
    as (_ & _ & _ & _ & Hid & _).
  split; [exact Hteam|exact Hid].
Defined.

(* ===================================================================== *)
(** ** Substituting a scalar for a placeholder *)
(* ===================================================================== *)

Lemma match_PATH_PARAM_RE_brace_free inside s :
  brace_free s = true → match_PATH_PARAM_RE inside s = [].
Proof.
  revert inside. induction s as [|c s IH]; intros inside Hfree; [done|].
  cbn [brace_free] in Hfree.
  apply andb_prop in Hfree as [[Hopen Hclose]%andb_prop Hfree].
  apply negb_true_iff in Hopen, Hclose.
  cbn [match_PATH_PARAM_RE]. rewrite Hopen, Hclose. by apply IH.
Qed.

Lemma match_PATH_PARAM_RE_close body post open :
  brace_free body = true → open +:+ body ≠ "" →
  match_PATH_PARAM_RE (Some open) (body +:+ "}" +:+ post)
  = ("{" +:+ (open +:+ body) +:+ "}") :: match_PATH_PARAM_RE None post.
Proof.
  revert open. induction body as [|c body IH]; intros open Hfree Hne.
  - rewrite String_append_nil_r in *. rewrite String_append_nil_l.
    change ("}" +:+ post) with (String "}" post).
    cbn [match_PATH_PARAM_RE Ascii.eqb Bool.eqb]. by destruct open.
  - cbn [brace_free] in Hfree.
    apply andb_prop in Hfree as [[Hopen Hclose]%andb_prop Hfree].
    apply negb_true_iff in Hopen, Hclose.
    rewrite String_append_cons. cbn [match_PATH_PARAM_RE].
    rewrite Hopen, Hclose. cbn [fmap option_fmap option_map].
    rewrite IH; [|done|].
    { by rewrite (String_append_assoc open (String c "") body). }
    intros H. apply (f_equal String.length) in H.
    rewrite !String_length_append in H. cbn in H. lia.
Qed.

Lemma match_PATH_PARAM_RE_single pre body post :
  brace_free pre = true → brace_free body = true → body ≠ "" →
  brace_free post = true →
  match_PATH_PARAM_RE None (pre +:+ "{" +:+ body +:+ "}" +:+ post)
  = ["{" +:+ body +:+ "}"].
Proof.
  intros Hpre Hbody Hne Hpost.
  assert (∀ inside,
            match_PATH_PARAM_RE inside (pre +:+ "{" +:+ body +:+ "}" +:+ post)
            = ["{" +:+ body +:+ "}"]) as Hany; [|apply Hany].
  induction pre as [|c pre IH]; intros inside.
  - rewrite String_append_nil_l.
    change ("{" +:+ body +:+ "}" +:+ post)
      with (String "{" (body +:+ "}" +:+ post)).
    cbn [match_PATH_PARAM_RE Ascii.eqb Bool.eqb].
    rewrite match_PATH_PARAM_RE_close by done.
    by rewrite String_append_nil_l, match_PATH_PARAM_RE_brace_free.
  - cbn [brace_free] in Hpre.
    apply andb_prop in Hpre as [[Hopen Hclose]%andb_prop Hpre].
    apply negb_true_iff in Hopen, Hclose.
    rewrite String_append_cons. cbn [match_PATH_PARAM_RE].
    rewrite Hopen, Hclose. by apply IH.
Qed.

Lemma prefix_append (m post : string) : String.prefix m (m +:+ post) = true.
Proof. apply prefix_correct, substring_prefix. Qed.

Lemma substring_drop (m post : string) :
  String.substring (String.length m)
    (String.length (m +:+ post) - String.length m) (m +:+ post) = post.
Proof.
  rewrite String_length_append.
  replace (String.length m + String.length post - String.length m)%nat
    with (String.length post) by lia.
  induction m as [|c m IH].
  - apply substring_all.
  - rewrite String_append_cons. cbn [String.length String.substring]. apply IH.
Qed.

Lemma split_first_placeholder pre body post :
  brace_free pre = true →
  split_first ("{" +:+ body +:+ "}") (pre +:+ ("{" +:+ body +:+ "}") +:+ post)
  = Some (pre, post).
Proof.
  intros Hpre. induction pre as [|c pre IH].
  - rewrite String_append_nil_l.
    assert (∀ m s, String.prefix m s = true →
              split_first m s
              = Some ("", String.substring (String.length m)
                            (String.length s - String.length m) s)) as Hhit.
    { intros m s Hm. destruct s; cbn [split_first]; by rewrite Hm. }
    by rewrite Hhit, substring_drop by apply prefix_append.
  - cbn [brace_free] in Hpre.
    apply andb_prop in Hpre as [[Hopen _]%andb_prop Hpre].
    apply negb_true_iff, Ascii.eqb_neq in Hopen.
    rewrite (String_append_cons c pre).
    assert (String.prefix ("{" +:+ body +:+ "}")
              (String c (pre +:+ ("{" +:+ body +:+ "}") +:+ post)) = false)
      as Hmiss.
    { change ("{" +:+ body +:+ "}") with (String "{" (body +:+ "}")).
      cbn [String.prefix]. by destruct (ascii_dec "{" c) as [<-|]. }
    cbn [split_first]. by rewrite Hmiss, (IH Hpre).
Qed.

Lemma GetSubstitution_dollar_free matched before after template :
  dollar_free template = true →
  GetSubstitution matched before after template = template.
Proof.
  induction template as [|c t IH]; [done|].
  unfold dollar_free. cbn [String_forallb]. intros [Hc Ht]%andb_prop.
  apply negb_true_iff in Hc. cbn [GetSubstitution]. rewrite Hc.
  f_equal. by apply IH.
Qed.

Lemma String_replace_placeholder pre body post text :
  brace_free pre = true → dollar_free text = true →
  String_replace (pre +:+ ("{" +:+ body +:+ "}") +:+ post)
    ("{" +:+ body +:+ "}") text
  = pre +:+ text +:+ post.
Proof.
  intros Hpre Htext. unfold String_replace.
  by rewrite split_first_placeholder, GetSubstitution_dollar_free.
Qed.

(** X18. A template with one placeholder, whose parameter is a scalar:
    the path serializer puts in its place the value as it is (not
    percent-encoded) for the [simple] style, the value after a dot for
    [label], and [;name=] with the percent-encoded value for [matrix];
    this for a replacement text without a dollar sign. *)
Theorem defaultPathSerializer_scalar (pre body post : string)
    (props : list (string * value)) :
  brace_free pre = true → brace_free body = true → body ≠ "" →
  brace_free post = true →
  is_scalar (get_prop props (parse_placeholder ("{" +:+ body +:+ "}")).2)
  = true →
  dollar_free
    (placeholder_text (parse_placeholder ("{" +:+ body +:+ "}")).1.1
       (parse_placeholder ("{" +:+ body +:+ "}")).2
       (get_prop props (parse_placeholder ("{" +:+ body +:+ "}")).2)) = true →
  defaultPathSerializer (pre +:+ ("{" +:+ body +:+ "}") +:+ post) (Some props)
  = Ok (VStr (pre +:+
              placeholder_text (parse_placeholder ("{" +:+ body +:+ "}")).1.1
                (parse_placeholder ("{" +:+ body +:+ "}")).2
                (get_prop props (parse_placeholder ("{" +:+ body +:+ "}")).2)
              +:+ post)).
Proof.
  intros Hpre Hbody Hne Hpost Hscalar Htext. unfold defaultPathSerializer.
  assert (match_PATH_PARAM_RE None (pre +:+ ("{" +:+ body +:+ "}") +:+ post)
          = ["{" +:+ body +:+ "}"]) as ->.
  { rewrite (String_append_assoc "{" (body +:+ "}") post).
    rewrite (String_append_assoc body "}" post).
    by apply match_PATH_PARAM_RE_single. }
  cbn [defaultPathSerializer_loop]. unfold defaultPathSerializer_step.
  destruct (parse_placeholder ("{" +:+ body +:+ "}")) as [[st ex] name].
  cbn [fst snd] in *.
  destruct (get_prop props name) as [| |b|n|s|?|?] eqn:Hv; try done;
    cbn [is_nullish isArray typeof_object];
    (destruct st; cbn [placeholder_text] in Htext;
     rewrite ?(bool_decide_eq_true_2 (matrix = matrix)) by done;
     rewrite ?bool_decide_eq_false_2 by done;
     rewrite ?(bool_decide_eq_true_2 (label = label)) by done;
     cbn [serializePrimitiveParam is_nullish typeof_object is_true
          mbind result_bind fmap result_fmap];
     rewrite ?bool_decide_eq_false_2 by done;
     rewrite String_replace_placeholder by done; done).
Qed.

Lemma defaultPathSerializer_scalar_witness :
  defaultPathSerializer "/users/{id}/posts" (Some [("id", VStr "a/b c")])
  = Ok (VStr "/users/a/b c/posts")
  ∧ defaultPathSerializer "/users/{;id}/posts" (Some [("id", VStr "a/b c")])
    = Ok (VStr "/users/;id=a%2Fb%20c/posts").
Proof.
  split.
  - refine (defaultPathSerializer_scalar "/users/" "id" "/posts"
              [("id", VStr "a/b c")] eq_refl eq_refl _ eq_refl eq_refl eq_refl).
    discriminate.
  - refine (defaultPathSerializer_scalar "/users/" ";id" "/posts"
              [("id", VStr "a/b c")] eq_refl eq_refl _ eq_refl eq_refl eq_refl).
    discriminate.
Defined.

(* ===================================================================== *)
(** ** What an encoded value is made of *)
(* ===================================================================== *)

Lemma hex_digits_unreserved c :
  uri_unreserved (hex_digit (N_of_ascii c / 16)) = true
  ∧ uri_unreserved (hex_digit (N_of_ascii c mod 16)) = true.
Proof. by destruct c as [[] [] [] [] [] [] [] []]. Qed.

Lemma percent_encode_safe s : String_forallb uri_safe (percent_encode s) = true.
Proof.
  induction s as [|c s IH]; [done|].
  cbn [percent_encode]. destruct (uri_unreserved c) eqn:Hc.
  - cbn [String_forallb]. unfold uri_safe at 1. by rewrite Hc, IH.
  - destruct (hex_digits_unreserved c) as [Hhigh Hlow].
    cbn [String_forallb]. unfold uri_safe at 1 2 3.
    by rewrite Hhigh, Hlow, IH.
Qed.

(** X19. Unless [allowReserved] is [true], what [serializePrimitiveParam]
    writes after [name=] for a scalar is made of unreserved characters and
    percent escapes only: no ampersand, equals sign, question mark, hash,
    slash or space of the value gets through. *)
Theorem serializePrimitiveParam_value_safe (name : string) (v : value)
    (reserved : option bool) :
  is_scalar v = true → reserved ≠ Some true →
  ∃ encoded,
    serializePrimitiveParam name v reserved = Ok (name +:+ "=" +:+ encoded)
    ∧ String_forallb uri_safe encoded = true
    ∧ String_forallb (λ c, negb (uri_safe c)) "&=?#/ +,;:@$" = true.
Proof.
  intros Hscalar Hreserved. exists (encodeURIComponent v).
  split; [|split; [apply percent_encode_safe|reflexivity]].
  unfold serializePrimitiveParam, is_true.
  rewrite bool_decide_eq_false_2 by done. by destruct v.
Qed.

Lemma serializePrimitiveParam_value_safe_witness :
  ∃ encoded,
    serializePrimitiveParam "q" (VStr "a&b=c") None = Ok ("q=" +:+ encoded)
    ∧ String_forallb uri_safe encoded = true.
Proof.
  destruct (serializePrimitiveParam_value_safe "q" (VStr "a&b=c") None eq_refl)
    as (encoded & Hresult & Hsafe & _); [discriminate|].
  exists encoded. split; [exact Hresult|exact Hsafe].
Defined.

(* ===================================================================== *)
(** ** Queries put together, and requests without a query *)
(* ===================================================================== *)

Lemma mapM_app {A B} (f : A → result B) (l1 l2 : list A) :
  mapM f (l1 ++ l2)
  = (ys1 ← mapM f l1; ys2 ← mapM f l2; Ok (ys1 ++ ys2)).
Proof.
  induction l1 as [|x l1 IH].
  - cbn [app mapM]. cbn [mret result_ret mbind result_bind].
    by destruct (mapM f l2).
  - cbn [app]. rewrite !mapM_cons, IH.
    destruct (f x) as [y|e]; [|done]. cbn [mbind result_bind].
    destruct (mapM f l1) as [ys1|e]; [|done]. cbn [mbind result_bind].
    by destruct (mapM f l2).
Qed.

Lemma String_join_app sep (a b : list string) :
  String_join sep (a ++ b)
  = String_join sep a
    +:+ match a, b with _ :: _, _ :: _ => sep | _, _ => "" end
    +:+ String_join sep b.
Proof.
  induction a as [|x a IH].
  - cbn [app String_join]. by destruct b.
  - destruct a as [|y a].
    + cbn [app]. destruct b as [|z b].
      * cbn [String_join]. by rewrite !String_append_nil_r.
      * by rewrite String_join_cons.
    + cbn [app] in *. rewrite !String_join_cons, IH.
      destruct b as [|z b]; by rewrite !String_append_assoc.
Qed.

Lemma mapM_length {A B} (f : A → result B) (l : list A) ys :
  mapM f l = Ok ys → length ys = length l.
Proof.
  revert ys. induction l as [|x l IH]; intros ys.
  - by intros [= <-].
  - rewrite mapM_cons. destruct (f x) as [y|e]; [|done].
    cbn [mbind result_bind]. destruct (mapM f l) as [ys'|e]; [|done].
    intros [= <-]. cbn [length]. f_equal. by apply IH.
Qed.

(** X20. The query of two mappings put one after the other is the
    query of the first, then the query of the second, with an ampersand
    between them when each has a parameter that is not [null] or
    [undefined]. *)
Theorem createQuerySerializer_app (options : option QuerySerializerOptions)
    (entries1 entries2 : list (string * value)) (q1 q2 : string) :
  createQuerySerializer options (VObj entries1) = Ok q1 →
  createQuerySerializer options (VObj entries2) = Ok q2 →
  createQuerySerializer options (VObj (entries1 ++ entries2))
  = Ok (q1 +:+ query_separator entries1 entries2 +:+ q2).
Proof.
  unfold createQuerySerializer.
  cbn [ToBoolean typeof_object andb for_in].
  rewrite !querySerializer_loop_mapM.
  unfold defined_params at 3. rewrite List.filter_app.
  fold (defined_params entries1). fold (defined_params entries2).
  rewrite mapM_app.
  destruct (mapM _ (defined_params entries1)) as [f1|e] eqn:H1; [|done].
  destruct (mapM _ (defined_params entries2)) as [f2|e] eqn:H2; [|done].
  cbn [mbind result_bind app]. intros [= <-] [= <-].
  rewrite String_join_app. do 2 f_equal.
  apply mapM_length in H1, H2. unfold query_separator.
  destruct f1, (defined_params entries1), f2, (defined_params entries2);
    done.
Qed.

Lemma createQuerySerializer_app_witness :
  createQuerySerializer None
    (VObj ([("a", VNum 1); ("x", VNull)] ++ [("b", VArr [VNum 2; VNum 3])]))
  = Ok "a=1&b=2&b=3".
Proof.
  exact (createQuerySerializer_app None [("a", VNum 1); ("x", VNull)]
           [("b", VArr [VNum 2; VNum 3])] "a=1" "b=2&b=3" eq_refl eq_refl).
Defined.

Lemma querySerializer_loop_all_nullish options entries search :
  forallb (λ kv, is_nullish kv.2) entries = true →
  querySerializer_loop options entries search = Ok search.
Proof.
  induction entries as [|[k v] entries IH]; [done|].
  cbn [forallb snd]. intros [Hv Hrest]%andb_prop.
  rewrite querySerializer_loop_cons, Hv. by apply IH.
Qed.

(** X21. A request without path parameters whose query is missing, is
    not an object, or holds only [null] and [undefined] values gets, with
    the built-in query serializer, the base URL and the path as its URL:
    no question mark is added. *)
Theorem createFinalURL_without_query (pathname : string)
    (options : FinalURLOptions) (p : Params)
    (serializerOptions : option QuerySerializerOptions) :
  params options = Some p → path p = None →
  querySerializer options = createQuerySerializer serializerOptions →
  forallb (λ kv, is_nullish kv.2)
    (for_in (nullish_coalesce (query p) (VObj []))) = true →
  createFinalURL pathname options = Ok (VStr (baseUrl options +:+ pathname)).
Proof.
  intros Hp Hpath Hserializer Hnone.
  rewrite (createFinalURL_without_path_params _ _ _ Hp Hpath), Hserializer.
  unfold createQuerySerializer.
  destruct (ToBoolean _ && typeof_object _).
  - rewrite querySerializer_loop_all_nullish by done.
    cbn. by rewrite String_append_nil_r.
  - cbn. by rewrite String_append_nil_r.
Qed.

Lemma createFinalURL_without_query_witness :
  createFinalURL "/users"
    {| baseUrl := "https://x"; querySerializer := createQuerySerializer None;
       params := Some {| path := None;
                         query := VObj [("page", VUndefined); ("q", VNull)];
                         header := HValue VUndefined |} |}
  = Ok (VStr "https://x/users").
Proof.
  exact (createFinalURL_without_query "/users"
           {| baseUrl := "https://x";
              querySerializer := createQuerySerializer None;
              params := Some {| path := None;
                                query := VObj [("page", VUndefined); ("q", VNull)];
                                header := HValue VUndefined |} |}
           {| path := None; query := VObj [("page", VUndefined); ("q", VNull)];
              header := HValue VUndefined |}
           None eq_refl eq_refl eq_refl eq_refl).
Defined.

(* ===================================================================== *)
(** ** Arrays in the [label] style, and arrays in a path *)
(* ===================================================================== *)

(** X22. In the [label] style an array never throws and comes out as a
    dot followed by its elements, each percent-encoded unless
    [allowReserved] is [true], with no name: the elements are separated
    by commas when [explode] is [false] and by dots otherwise. *)
Theorem serializeArrayParam_label (name : string) (elems : list value)
    (exploded reserved : option bool) :
  serializeArrayParam name (VArr elems) (opts (Some label) exploded reserved)
  = Ok ("." +:+
        String_join (if is_false exploded then "," else ".")
          (List.map (flat_value reserved) elems)).
Proof.
  unfold serializeArrayParam. cbn [opts explode style allowReserved].
  destruct (is_false exploded).
  - by rewrite Array_join_flat_values.
  - change (style_is (opts (Some label) exploded reserved) simple) with false.
    change (style_is (opts (Some label) exploded reserved) label) with true.
    cbn [orb]. rewrite push_each_mapM.
    rewrite (mapM_Ok (λ e, if is_true reserved then e
                           else VStr (encodeURIComponent e))).
    cbn [mbind result_bind app]. f_equal.
    change (explode_joiner (opts (Some label) exploded reserved)) with ".".
    f_equal. rewrite <- Array_join_flat_values. f_equal.
    destruct (is_true reserved); [|done]. apply List.map_id.
Qed.

Lemma uri_safe_not_dollar c : uri_safe c = true → negb (Ascii.eqb c "$") = true.
Proof. by destruct c as [[] [] [] [] [] [] [] []]. Qed.

Lemma dollar_free_safe s : String_forallb uri_safe s = true → dollar_free s = true.
Proof.
  unfold dollar_free. induction s as [|c s IH]; [done|].
  cbn [String_forallb]. intros [Hc Hs]%andb_prop.
  by rewrite uri_safe_not_dollar, IH.
Qed.

Lemma dollar_free_append (a b : string) :
  dollar_free a = true → dollar_free b = true → dollar_free (a +:+ b) = true.
Proof.
  unfold dollar_free. induction a as [|c a IH]; [done|].
  rewrite String_append_cons. cbn [String_forallb].
  intros [Hc Ha]%andb_prop Hb. by rewrite Hc, IH.
Qed.

Lemma dollar_free_encoded_join (elems : list value) :
  dollar_free (String_join "," (List.map (flat_value None) elems)) = true.
Proof.
  induction elems as [|e elems IH]; [done|].
  cbn [List.map]. destruct elems as [|e' elems].
  - cbn [List.map String_join]. apply dollar_free_safe, percent_encode_safe.
  - cbn [List.map] in *. rewrite String_join_cons.
    apply dollar_free_append; [apply dollar_free_safe, percent_encode_safe|].
    by apply dollar_free_append.
Qed.

(** X23. A template with one placeholder in the [simple] style, with or
    without a star, whose parameter is an array: the path serializer puts
    in its place the elements, each percent-encoded (unlike a scalar
    parameter), joined with commas. *)
Theorem defaultPathSerializer_array (pre body post : string)
    (props : list (string * value)) (elems : list value) :
  brace_free pre = true → brace_free body = true → body ≠ "" →
  brace_free post = true →
  (parse_placeholder ("{" +:+ body +:+ "}")).1.1 = simple →
  get_prop props (parse_placeholder ("{" +:+ body +:+ "}")).2 = VArr elems →
  defaultPathSerializer (pre +:+ ("{" +:+ body +:+ "}") +:+ post) (Some props)
  = Ok (VStr (pre +:+
              String_join "," (List.map encodeURIComponent elems) +:+ post)).
Proof.
  intros Hpre Hbody Hne Hpost Hstyle Hv. unfold defaultPathSerializer.
  assert (match_PATH_PARAM_RE None (pre +:+ ("{" +:+ body +:+ "}") +:+ post)
          = ["{" +:+ body +:+ "}"]) as ->.
  { rewrite (String_append_assoc "{" (body +:+ "}") post).
    rewrite (String_append_assoc body "}" post).
    by apply match_PATH_PARAM_RE_single. }
  cbn [defaultPathSerializer_loop]. unfold defaultPathSerializer_step.
  destruct (parse_placeholder ("{" +:+ body +:+ "}")) as [[st ex] name].
  cbn [fst snd] in *. subst st. rewrite Hv.
  cbn [is_nullish isArray].
  pose proof (serializeArrayParam_simple_joined name elems (Some ex) None)
    as Hjoined.
  unfold opts in Hjoined. rewrite Hjoined.
  cbn [mbind result_bind fmap result_fmap].
  rewrite String_replace_placeholder;
    [done|done|apply dollar_free_encoded_join].
Qed.

Lemma defaultPathSerializer_array_witness :
  defaultPathSerializer "/teams/{team*}/members"
    (Some [("team", VArr [VStr "a/b"; VStr "c d"])])
  = Ok (VStr "/teams/a%2Fb,c%20d/members").
Proof.
  refine (defaultPathSerializer_array "/teams/" "team*" "/members"
            [("team", VArr [VStr "a/b"; VStr "c d"])]
            [VStr "a/b"; VStr "c d"] eq_refl eq_refl _ eq_refl eq_refl eq_refl).
  discriminate.
Defined.
